(** * Path autocompletion: the resolution engine of PathAutocompleteProvider.ts

    A shallow embedding of the provider class [PathAutocomplete]:
    the trigger gate ([shouldProvide]), the fragment extractor
    ([getUserPath]), the path mapper ([applyMapping]), the directory
    resolver ([getFolderPath], [getCurrentDirectory], [getNodeModulesPath]),
    the candidate formatter ([getInsertText]) and the orchestrator
    ([provideCompletionItems]).

    JavaScript strings are modelled as [string] (one [ascii] per code
    unit), indices as [nat], and the sentinel index -1 as a [Z].  The
    platform collaborators (Node's [path] and [fs], the regular
    expression engine, minimatch) are interfaces; the posix flavour of
    [path] and a literal-pattern regular expression engine are given as
    instances so that every definition can be evaluated. *)

From Stdlib Require Import String Ascii List Bool Arith ZArith Lia Sorted.
From Equations Require Import Equations.
Import ListNotations.
Open Scope string_scope.
Open Scope nat_scope.

(** ** Characters the source compares against *)

Definition backslash : ascii := "092"%char.
Definition squote : ascii := "039"%char.
Definition dquote : ascii := "034"%char.
Definition backtick : ascii := "096"%char.
Definition slash : ascii := "/"%char.
Definition dot : ascii := "."%char.
Definition dollar : ascii := "$"%char.

(** ** JavaScript string primitives *)

Module JS.

(** [s[i]]: [None] stands for [undefined]. *)
Definition at_ (s : string) (i : nat) : option ascii := String.get i s.

(** [s.charAt(i)]: [None] stands for the empty string returned out of
    range, in particular at index -1. *)
Definition charAt (s : string) (i : Z) : option ascii :=
  if (i <? 0)%Z then None else String.get (Z.to_nat i) s.

(** Comparison [c == 'x'] of a possibly missing character with a
    one-character literal. *)
Definition charIs (c : option ascii) (a : ascii) : bool :=
  match c with
  | Some b => Ascii.eqb b a
  | None => false
  end.

Fixpoint take (n : nat) (s : string) : string :=
  match n, s with
  | S n', String c s' => String c (take n' s')
  | _, _ => EmptyString
  end.

Fixpoint drop (n : nat) (s : string) : string :=
  match n, s with
  | S n', String _ s' => drop n' s'
  | _, _ => s
  end.

(** [s.substring(from, to)]: both indices are clamped to the length
    and swapped when [from > to]. *)
Definition substring (s : string) (from to : nat) : string :=
  let a := Nat.min from to in
  let b := Nat.max from to in
  take (b - a) (drop a s).

(** [s.substring(from)]. *)
Definition substringFrom (s : string) (from : nat) : string := drop from s.

(** [s.startsWith(search)]. *)
Fixpoint startsWith (s search : string) {struct search} : bool :=
  match search with
  | EmptyString => true
  | String a search' =>
      match s with
      | String b s' => Ascii.eqb a b && startsWith s' search'
      | EmptyString => false
      end
  end.

(** [s.indexOf(search)], [None] standing for -1. *)
Fixpoint indexOf (s search : string) : option nat :=
  if startsWith s search then Some 0
  else match s with
       | EmptyString => None
       | String _ s' => option_map S (indexOf s' search)
       end.

(** [s.includes(search)]; also [s.match(/search/)] being non-null for a
    pattern without metacharacters. *)
Definition includes (s search : string) : bool :=
  match indexOf s search with
  | Some _ => true
  | None => false
  end.

(** GetSubstitution of ECMAScript for a match without capture groups:
    in the replacement text [$$] stands for a dollar sign, [$&] for the
    matched text, [$`] for the text before the match and [$'] for the
    text after it; every other character, a dollar sign included,
    stands for itself. *)
Fixpoint getSubstitution (matched before after replacement : string) : string :=
  match replacement with
  | EmptyString => EmptyString
  | String c rest =>
      if Ascii.eqb c dollar then
        match rest with
        | String d rest' =>
            if Ascii.eqb d dollar then
              String dollar (getSubstitution matched before after rest')
            else if Ascii.eqb d "&" then
              matched ++ getSubstitution matched before after rest'
            else if Ascii.eqb d backtick then
              before ++ getSubstitution matched before after rest'
            else if Ascii.eqb d squote then
              after ++ getSubstitution matched before after rest'
            else String c (getSubstitution matched before after rest)
        | EmptyString => String c EmptyString
        end
      else String c (getSubstitution matched before after rest)
  end.

(** [s.replace(search, replacement)] with a string [search]: only the
    first occurrence is replaced. *)
Definition replace (s search replacement : string) : string :=
  match indexOf s search with
  | None => s
  | Some i =>
      let before := take i s in
      let after := drop (i + String.length search) s in
      before ++ getSubstitution search before after replacement ++ after
  end.

(** Truthiness of a string: only the empty string is falsy. *)
Definition truthy (s : string) : bool :=
  match s with
  | EmptyString => false
  | String _ _ => true
  end.

(** [/^[a-z]/i] on a character: without the unicode flag the
    case-insensitive class holds the ASCII letters only. *)
Definition isAsciiLetter (c : ascii) : bool :=
  let n := nat_of_ascii c in
  ((65 <=? n) && (n <=? 90)) || ((97 <=? n) && (n <=? 122)).

(** ** The order of the own keys of an object

    [Object.keys] lists the keys that are array indices first, in
    ascending numeric order, then the other keys in the order in which
    they were created. *)

Definition isDigit (c : ascii) : bool :=
  let n := nat_of_ascii c in (48 <=? n) && (n <=? 57).

Fixpoint digitsValue (s : string) (acc : N) : option N :=
  match s with
  | EmptyString => Some acc
  | String c s' =>
      if isDigit c
      then digitsValue s' (acc * 10 + N.of_nat (nat_of_ascii c - 48))%N
      else None
  end.

(** A key is an array index when it is the canonical decimal writing
    of an integer below 2^32 - 1. *)
Definition arrayIndex (key : string) : option N :=
  match key with
  | EmptyString => None
  | String c rest =>
      if Ascii.eqb c "0" && truthy rest then None
      else match digitsValue key 0 with
           | Some n => if (n <? 4294967295)%N then Some n else None
           | None => None
           end
  end.

Definition isNamedKey (key : string) : bool :=
  match arrayIndex key with
  | Some _ => false
  | None => true
  end.

Fixpoint insertIndexed {V : Type} (n : N) (entry : string * V)
    (l : list (N * (string * V))) : list (N * (string * V)) :=
  match l with
  | [] => [(n, entry)]
  | (m, entry') :: rest =>
      if (n <? m)%N then (n, entry) :: l
      else (m, entry') :: insertIndexed n entry rest
  end.

(** The entries whose key is an array index, by ascending index. *)
Fixpoint indexedEntries {V : Type} (l : list (string * V)) : list (N * (string * V)) :=
  match l with
  | [] => []
  | entry :: rest =>
      match arrayIndex (fst entry) with
      | Some n => insertIndexed n entry (indexedEntries rest)
      | None => indexedEntries rest
      end
  end.

(** The entries of an object in the order of [Object.keys], from its
    entries in the order of their creation. *)
Definition ownEntries {V : Type} (l : list (string * V)) : list (string * V) :=
  (map snd (indexedEntries l)
   ++ List.filter (fun entry => isNamedKey (fst entry)) l)%list.

End JS.

(** ** Configuration (PathConfiguration.data) *)

Record Transformation : Type := {
  when_fileName : option string;   (* transform.when && transform.when.fileName *)
  type_ : string;                  (* transform.type *)
  parameters : list string         (* transform.parameters || [] *)
}.

(** Modelled from the spec: the data of [PathConfiguration]
    (./PathConfiguration is not part of the sources), with the fields the
    provider reads.  [pathMappings] and [excludedItems] are JavaScript
    objects used as maps: each is kept as the list of its entries, every
    key once, in the order in which the settings declare them; the
    provider walks [pathMappings] in the order of [Object.keys]
    ([JS.ownEntries]). *)
Record Configuration : Type := {
  homeDirectory : string;
  workspaceRootPath : string;      (* the empty string when not configured *)
  workspaceFolderPath : string;    (* the empty string when not configured *)
  pathMappings : list (string * string);
  transformations : list Transformation;
  excludedItems : list (string * string);   (* pattern, rule.when *)
  withExtension : bool;
  triggerOutsideStrings : bool;
  enableFolderTrailingSlash : bool
}.

(** ** shouldProvide *)

Record Quotes : Type := { single : Z; double : Z; backtick_ : Z }.

(** [q += q > 0 ? -1 : 1]. *)
Definition toggle (q : Z) : Z := (q + (if q >? 0 then -1 else 1))%Z.

(** The test [currentLine.charAt(i) == q && currentLine.charAt(i-1) != '\\']. *)
Definition quoteNotEscaped (currentLine : string) (q : ascii) (i : nat) : bool :=
  JS.charIs (JS.charAt currentLine (Z.of_nat i)) q
  && negb (JS.charIs (JS.charAt currentLine (Z.of_nat i - 1)) backslash).

(** The body of the loop of [shouldProvide]. *)
Definition shouldProvide_step (currentLine : string) (quotes : Quotes) (i : nat) : Quotes :=
  let quotes :=
    if quoteNotEscaped currentLine squote i
    then {| single := toggle (single quotes); double := double quotes;
            backtick_ := backtick_ quotes |}
    else quotes in
  let quotes :=
    if quoteNotEscaped currentLine dquote i
    then {| single := single quotes; double := toggle (double quotes);
            backtick_ := backtick_ quotes |}
    else quotes in
  if quoteNotEscaped currentLine backtick i
  then {| single := single quotes; double := double quotes;
          backtick_ := toggle (backtick_ quotes) |}
  else quotes.

Definition shouldProvide_scan (currentLine : string) (position : nat) : Quotes :=
  fold_left (shouldProvide_step currentLine) (seq 0 position)
            {| single := 0; double := 0; backtick_ := 0 |}.

Definition shouldProvide (cfg : Configuration) (currentLine : string) (position : nat) : bool :=
  if triggerOutsideStrings cfg then true
  else
    let quotes := shouldProvide_scan currentLine position in
    negb (single quotes =? 0)%Z || negb (double quotes =? 0)%Z
    || negb (backtick_ quotes =? 0)%Z.

(** ** getUserPath *)

Definition isSeparator (c : option ascii) : bool :=
  JS.charIs c " " || JS.charIs c "009" || JS.charIs c "(" || JS.charIs c "{" || JS.charIs c "[".

Definition isQuote (c : option ascii) : bool :=
  JS.charIs c squote || JS.charIs c dquote || JS.charIs c backtick.

(** The [for] loop of [getUserPath], from index [i]; [fuel] bounds the
    number of iterations, each of which advances [i]. *)
Fixpoint getUserPath_scan (fuel : nat) (currentLine : string) (currentPosition i : nat)
    (lastQuote lastSeparator : Z) : Z * Z :=
  match fuel with
  | O => (lastQuote, lastSeparator)
  | S fuel' =>
      if i <? currentPosition then
        let c := JS.at_ currentLine i in
        if JS.charIs c backslash then
          getUserPath_scan fuel' currentLine currentPosition (i + 2) lastQuote lastSeparator
        else if isSeparator c then
          getUserPath_scan fuel' currentLine currentPosition (i + 1) lastQuote (Z.of_nat i)
        else if isQuote c then
          getUserPath_scan fuel' currentLine currentPosition (i + 1) (Z.of_nat i) lastSeparator
        else
          getUserPath_scan fuel' currentLine currentPosition (i + 1) lastQuote lastSeparator
      else (lastQuote, lastSeparator)
  end.

Definition getUserPath_start (currentLine : string) (currentPosition : nat) : Z :=
  let '(lastQuote, lastSeparator) :=
    getUserPath_scan currentPosition currentLine currentPosition 0 (-1) (-1) in
  if negb (lastQuote =? -1)%Z then lastQuote else lastSeparator.

Definition getUserPath (currentLine : string) (currentPosition : nat) : string :=
  let startPosition := getUserPath_start currentLine currentPosition in
  JS.substring currentLine (Z.to_nat (startPosition + 1)) currentPosition.

(** ** applyMapping *)

Record MappingResult : Type := { currentDir : string; insertedPath : string }.

(** The body of the [map] callback: placeholder substitution in one
    mapping target. *)
Definition substitutePlaceholders (cfg : Configuration) (candidatePath : string) : string :=
  let candidatePath :=
    if JS.truthy (workspaceRootPath cfg)
    then JS.replace candidatePath "${workspace}" (workspaceRootPath cfg)
    else candidatePath in
  let candidatePath :=
    if JS.truthy (workspaceFolderPath cfg)
    then JS.replace candidatePath "${folder}" (workspaceFolderPath cfg)
    else candidatePath in
  JS.replace candidatePath "${home}" (homeDirectory cfg).

(** The test of the [some] callback. *)
Definition mappingApplies (insertedPath key : string) : bool :=
  JS.startsWith insertedPath key || String.eqb key "$root".

(** [Array.prototype.some] over the substituted mappings, threading the
    two variables the callback assigns. *)
Fixpoint applyMapping_some (mappings : list (string * string)) (st : MappingResult)
    : MappingResult :=
  match mappings with
  | [] => st
  | (key, path) :: rest =>
      if mappingApplies (insertedPath st) key
      then {| currentDir := path; insertedPath := JS.replace (insertedPath st) key EmptyString |}
      else applyMapping_some rest st
  end.

Definition applyMapping (cfg : Configuration) (insertedPath : string) : MappingResult :=
  let mappings :=
    map (fun m => (fst m, substitutePlaceholders cfg (snd m)))
      (JS.ownEntries (pathMappings cfg)) in
  applyMapping_some mappings {| currentDir := EmptyString; insertedPath := insertedPath |}.

(** ** isNodePackage *)

Definition isNodePackage (insertedPath currentLine : string) : bool :=
  if negb (JS.includes currentLine "require" || JS.includes currentLine "import")
  then false
  else if negb (match insertedPath with
                | String c _ => JS.isAsciiLetter c
                | EmptyString => false
                end)
  then false
  else true.

(** ** Platform interfaces *)

(** Node's [path] module, as far as the provider calls it.  The module is
    chosen by the platform (posix or win32); the provider only relies on
    the parent step reaching a fixed point, which is what ends the loop
    of [getNodeModulesPath]. *)
Class PathLib : Type := {
  path_join : string -> string -> string;
  path_resolve : string -> string;
  path_dirname : string -> string;
  path_parse_dir : string -> string;               (* path.parse(p).dir *)
  path_basename : string -> string;
  path_basename_ext : string -> string -> string;  (* path.basename(p, ext) *)
  path_extname : string -> string;
  path_dirname_descends : forall p,
    path_dirname p <> p ->
    String.length (path_dirname p) < String.length p
    \/ path_dirname (path_dirname p) = path_dirname p
}.

(** The regular expression engine: [regexp_error pattern] is the
    SyntaxError that [new RegExp(pattern)] throws when the pattern does
    not compile; for a pattern that compiles, [regexp_exec pattern s] is
    the index and the length of its first match in [s], and
    [regexp_substitution pattern s replacement] the text that
    GetSubstitution builds for that match (capture references expanded). *)
Class RegExpLib : Type := {
  regexp_error : string -> option string;
  regexp_exec : string -> string -> option (nat * nat);
  regexp_substitution : string -> string -> string -> string
}.

(** [minimatch(path, pattern)]. *)
Class GlobLib : Type := {
  minimatch : string -> string -> bool
}.

(** The state of the file system a request observes. *)
Record FileSystem : Type := {
  existsSync : string -> bool;
  lstat_isDirectory : string -> bool;          (* fs.lstatSync(p).isDirectory() *)
  readdir : string -> string + list string;    (* the error, or the entry names *)
  stat_isDirectory : string -> option bool     (* None: inspecting the entry throws *)
}.

(** ** FileInfo *)

Record FileInfo : Type := {
  getName : string;
  getPath : string;
  isDirectory : bool
}.

(** Modelled from the spec: the constructor of [FileInfo] (./FileInfo is
    not part of the sources).  An entry is built from one path, with its
    name, its path and its is-directory flag; building it fails when the
    entry cannot be inspected. *)
Definition newFileInfo {P : PathLib} (fs : FileSystem) (itemPath : string)
    : option FileInfo :=
  match stat_isDirectory fs itemPath with
  | Some d => Some {| getName := path_basename itemPath; getPath := itemPath;
                      isDirectory := d |}
  | None => None
  end.

(** ** Completions, promises and the editor's types *)

(** How the evaluation of a piece of JavaScript ends: with a value, or
    with a thrown error. *)
Inductive Completion (A : Type) : Type :=
| Normal (value : A)
| Thrown (err : string).
Arguments Normal {A} value.
Arguments Thrown {A} err.

(** [Array.prototype.map] with a callback that may throw: the first
    throw ends the walk. *)
Fixpoint mapCompletion {A B : Type} (f : A -> Completion B) (l : list A)
    : Completion (list B) :=
  match l with
  | [] => Normal []
  | a :: rest =>
      match f a with
      | Thrown err => Thrown err
      | Normal b =>
          match mapCompletion f rest with
          | Thrown err => Thrown err
          | Normal bs => Normal (b :: bs)
          end
      end
  end.

Inductive Promise (A : Type) : Type :=
| Resolved (value : A)
| Rejected (err : string).
Arguments Resolved {A} value.
Arguments Rejected {A} err.

(** [p.then(f)] with a fulfilment handler only: a rejection passes through. *)
Definition then_ {A B : Type} (p : Promise A) (f : A -> Promise B) : Promise B :=
  match p with
  | Resolved a => f a
  | Rejected e => Rejected e
  end.

Record TextDocument : Type := { fileName : string; lines : list string }.
Record Position : Type := { line : nat; character : nat }.

(** The cancellation token, as it stands when the directory listing
    completes. *)
Record CancellationToken : Type := { isCancellationRequested : bool }.

Inductive CompletionItemKind : Type := File.

Record Command : Type := {
  command : string;
  title : string;
  arguments : list string          (* the [text] of each argument *)
}.

Record CompletionItem : Type := {
  label : string;
  insertText : option string;
  sortText : option string;
  command_ : option Command;
  kind : option CompletionItemKind
}.

(** [new vs.CompletionItem(label)]. *)
Definition newCompletionItem (l : string) : CompletionItem :=
  {| label := l; insertText := None; sortText := None; command_ := None; kind := None |}.

Section Provider.

Context {P : PathLib} {R : RegExpLib} {G : GlobLib}.
Variable cfg : Configuration.
Variable fs : FileSystem.

(** ** getNodeModulesPath *)

(** What decreases along the loop: the parent step shortens the path,
    except for the last steps into its fixed point. *)
Definition walkMeasure (p : string) : nat :=
  if String.eqb p (path_dirname p) then 0
  else if String.eqb (path_dirname p) (path_dirname (path_dirname p)) then 1
  else 2 + String.length p.

Lemma walkMeasure_descends p :
  String.eqb p (path_dirname p) = false ->
  walkMeasure (path_dirname p) < walkMeasure p.
Proof.
  intros Hne. unfold walkMeasure. rewrite Hne.
  destruct (String.eqb (path_dirname p) (path_dirname (path_dirname p))) eqn:E1.
  - lia.
  - destruct (String.eqb (path_dirname (path_dirname p))
                (path_dirname (path_dirname (path_dirname p)))) eqn:E2; try lia.
    apply String.eqb_neq in Hne, E1.
    destruct (path_dirname_descends p) as [Hlt | Hfix]; [congruence | lia | congruence].
Qed.

(** The [while] loop of [getNodeModulesPath]. *)
Equations getNodeModulesPath_walk (rootPath currentDir : string) : string
  by wf (walkMeasure currentDir) lt :=
  getNodeModulesPath_walk rootPath currentDir
    with (@exist bool (fun b => String.eqb currentDir (path_dirname currentDir) = b)
            (String.eqb currentDir (path_dirname currentDir)) eq_refl) := {
    | exist _ true _ => path_join rootPath "node_modules"
    | exist _ false Hne =>
        let candidatePath := path_join currentDir "node_modules" in
        if existsSync fs candidatePath then candidatePath
        else getNodeModulesPath_walk rootPath (path_dirname currentDir) }.
Next Obligation. apply walkMeasure_descends. assumption. Qed.

Definition getNodeModulesPath (currentDir : string) : string :=
  let rootPath := workspaceFolderPath cfg in
  getNodeModulesPath_walk rootPath currentDir.

(** ** getCurrentDirectory *)

Definition getCurrentDirectory (fileName insertedPath : string) : string :=
  let currentDir :=
    if JS.truthy (path_parse_dir fileName) then path_parse_dir fileName else "/" in
  let workspacePath := workspaceFolderPath cfg in
  let currentDir :=
    if JS.startsWith insertedPath "/" && JS.truthy workspacePath
    then workspacePath else currentDir in
  path_resolve currentDir.

(** ** getFolderPath *)

(** [/^[a-z]:/i]. *)
Definition matchesDriveLetter (s : string) : bool :=
  match s with
  | String c (String d _) => JS.isAsciiLetter c && Ascii.eqb d ":"
  | _ => false
  end.

Definition getFolderPath (fileName currentLine : string) (currentPosition : nat)
    : string :=
  let userPath := getUserPath currentLine currentPosition in
  let mappingResult := applyMapping cfg userPath in
  let insertedPath := insertedPath mappingResult in
  let currentDir :=
    if JS.truthy (currentDir mappingResult) then currentDir mappingResult
    else getCurrentDirectory fileName insertedPath in
  if matchesDriveLetter insertedPath then path_resolve insertedPath
  else if JS.startsWith insertedPath "~" then
    path_join (homeDirectory cfg) (JS.substringFrom insertedPath 1)
  else if isNodePackage insertedPath currentLine then
    path_join (getNodeModulesPath currentDir) insertedPath
  else path_join currentDir insertedPath.

(** ** getInsertText *)

(** [String.prototype.replace] with a regular expression without the
    global flag: the first match only. *)
Definition replaceRegExp (s pattern replacement : string) : string :=
  match regexp_exec pattern s with
  | None => s
  | Some (i, n) =>
      JS.take i s ++ regexp_substitution pattern s replacement ++ JS.drop (i + n) s
  end.

(** [x && x.length]-style truthiness of an optional string. *)
Definition truthyOpt (o : option string) : bool :=
  match o with
  | Some s => JS.truthy s
  | None => false
  end.

(** [new RegExp(pattern)]: the compiled expression, for which the
    pattern itself stands, or the SyntaxError. *)
Definition newRegExp (pattern : string) : Completion string :=
  match regexp_error pattern with
  | Some err => Thrown err
  | None => Normal pattern
  end.

(** [transform.when && transform.when.fileName && new RegExp(...)]: the
    expression is compiled only for a file name pattern that is there
    and not empty. *)
Definition fileNameRegexOf (transform : Transformation) : Completion (option string) :=
  match when_fileName transform with
  | Some fileName =>
      if JS.truthy fileName then
        match newRegExp fileName with
        | Normal regex => Normal (Some regex)
        | Thrown err => Thrown err
        end
      else Normal None
  | None => Normal None
  end.

(** The body of the [forEach] callback over the transformations: the
    text after the rule, or the error it throws. *)
Definition applyTransformation (file : FileInfo) (insertText : string)
    (transform : Transformation) : Completion string :=
  match fileNameRegexOf transform with
  | Thrown err => Thrown err
  | Normal fileNameRegex =>
      let skip :=
        match fileNameRegex with
        | Some regex =>
            match regexp_exec regex (getName file) with
            | Some _ => false
            | None => true
            end
        | None => false
        end in
      if skip then Normal insertText
      else
        let parameters := parameters transform in
        if String.eqb (type_ transform) "replace" && truthyOpt (nth_error parameters 0)
        then
          match newRegExp (nth 0 parameters EmptyString) with
          | Thrown err => Thrown err
          | Normal regex =>
              Normal (replaceRegExp insertText regex
                        (match nth_error parameters 1 with
                         | Some r => r
                         | None => "undefined"
                         end))
          end
        else Normal insertText
  end.

Definition baseInsertText (file : FileInfo) : string :=
  if withExtension cfg || isDirectory file
  then path_basename (getName file)
  else path_basename_ext (getName file) (path_extname (getName file)).

(** [forEach] over the transformations: a throw ends the walk. *)
Fixpoint forEachTransformation (file : FileInfo) (transforms : list Transformation)
    (insertText : string) : Completion string :=
  match transforms with
  | [] => Normal insertText
  | transform :: rest =>
      match applyTransformation file insertText transform with
      | Thrown err => Thrown err
      | Normal text => forEachTransformation file rest text
      end
  end.

Definition getInsertText (file : FileInfo) : Completion string :=
  forEachTransformation file (transformations cfg) (baseInsertText file).

(** ** filter *)

Definition filter (currentFile : string) (file : FileInfo) : bool :=
  fold_left
    (fun (valid : bool) (entry : string * string) =>
       let (item, rule) := entry in
       if minimatch currentFile rule && minimatch (getPath file) item
       then false else valid)
    (excludedItems cfg) true.

(** ** getFolderItems *)

Definition getFolderItems (folderPath : string) : Promise (list FileInfo) :=
  match readdir fs folderPath with
  | inl err => Rejected err
  | inr items =>
      Resolved
        (fold_left
           (fun results item =>
              match newFileInfo fs (path_join folderPath item) with
              | Some info => (results ++ [info])%list
              | None => results
              end)
           items [])
  end.

(** ** provideCompletionItems *)

(** The candidate of an entry, once its insertion text is known. *)
Definition candidateOf (file : FileInfo) (insert : string) : CompletionItem :=
  let completion := newCompletionItem (getName file) in
  if isDirectory file then
    {| label := label completion ++ "/";
       insertText := Some insert;
       sortText := Some "d";
       command_ :=
         if enableFolderTrailingSlash cfg
         then Some {| command := "default:type"; title := "triggerSuggest";
                      arguments := ["/"] |}
         else None;
       kind := Some File |}
  else
    {| label := label completion;
       insertText := Some insert;
       sortText := Some "f";
       command_ := None;
       kind := Some File |}.

(** The body of the [map] callback: it throws when [getInsertText] does. *)
Definition toCompletionItem (file : FileInfo) : Completion CompletionItem :=
  match getInsertText file with
  | Thrown err => Thrown err
  | Normal insert => Normal (candidateOf file insert)
  end.

(** The fulfilment handler of the listing: a throw in it rejects the
    promise. *)
Definition listCandidates (currentFile : string) (items : list FileInfo)
    : Promise (list CompletionItem) :=
  match mapCompletion toCompletionItem (List.filter (filter currentFile) items) with
  | Thrown err => Rejected err
  | Normal result => Resolved (newCompletionItem ".." :: result)
  end.

Definition provideCompletionItems (document : TextDocument) (position : Position)
    (token : CancellationToken) : Promise (list CompletionItem) :=
  let currentLine := nth (line position) (lines document) EmptyString in
  let currentFile := fileName document in
  if negb (shouldProvide cfg currentLine (character position)) then Resolved []
  else
    let folderPath := getFolderPath (fileName document) currentLine (character position) in
    if negb (existsSync fs folderPath) || negb (lstat_isDirectory fs folderPath)
    then Resolved []
    else
      then_ (getFolderItems folderPath) (listCandidates currentFile).

End Provider.

(** ** The posix flavour of Node's [path]

    A model of [path.posix] (lib/path.js of Node), parameterised by the
    working directory of the process, which [path.resolve] falls back on. *)

Module Posix.

Definition isSlash (c : ascii) : bool := Ascii.eqb c slash.

Fixpoint dropWhile (f : ascii -> bool) (l : list ascii) : list ascii :=
  match l with
  | [] => []
  | c :: l' => if f c then dropWhile f l' else l
  end.

Fixpoint takeWhile (f : ascii -> bool) (l : list ascii) : list ascii :=
  match l with
  | [] => []
  | c :: l' => if f c then c :: takeWhile f l' else []
  end.

Definition notSlash (c : ascii) : bool := negb (isSlash c).

(** The pieces of a path between its separators. *)
Fixpoint segments (s : string) : list string :=
  match s with
  | EmptyString => [EmptyString]
  | String c s' =>
      if isSlash c then EmptyString :: segments s'
      else match segments s' with
           | seg :: rest => String c seg :: rest
           | [] => [String c EmptyString]
           end
  end.

(** [normalizeString]: empty and [.] segments vanish, [..] removes the
    segment before it, or stays when there is none and the path is
    relative.  The stack holds the kept segments, last first. *)
Fixpoint normalizeSegments (allowAboveRoot : bool) (segs stack : list string)
    : list string :=
  match segs with
  | [] => rev stack
  | seg :: rest =>
      if String.eqb seg EmptyString || String.eqb seg "." then
        normalizeSegments allowAboveRoot rest stack
      else if String.eqb seg ".." then
        match stack with
        | top :: stack' =>
            if String.eqb top ".."
            then normalizeSegments allowAboveRoot rest
                   (if allowAboveRoot then ".." :: stack else stack)
            else normalizeSegments allowAboveRoot rest stack'
        | [] =>
            normalizeSegments allowAboveRoot rest
              (if allowAboveRoot then [".."] else [])
        end
      else normalizeSegments allowAboveRoot rest (seg :: stack)
  end.

Definition normalizeString (path : string) (allowAboveRoot : bool) : string :=
  String.concat "/" (normalizeSegments allowAboveRoot (segments path) []).

Definition isAbsolute (path : string) : bool := JS.startsWith path "/".

Definition endsWithSlash (path : string) : bool :=
  match rev (list_ascii_of_string path) with
  | c :: _ => isSlash c
  | [] => false
  end.

Definition normalize (path : string) : string :=
  match path with
  | EmptyString => "."
  | _ =>
      let normalized := normalizeString path (negb (isAbsolute path)) in
      match normalized with
      | EmptyString =>
          if isAbsolute path then "/"
          else if endsWithSlash path then "./" else "."
      | _ =>
          let normalized :=
            if endsWithSlash path then normalized ++ "/" else normalized in
          if isAbsolute path then "/" ++ normalized else normalized
      end
  end.

Definition join (a b : string) : string :=
  match a, b with
  | EmptyString, EmptyString => "."
  | EmptyString, _ => normalize b
  | _, EmptyString => normalize a
  | _, _ => normalize (a ++ "/" ++ b)
  end.

Definition resolve (cwd path : string) : string :=
  let resolvedPath :=
    match path with
    | EmptyString => cwd ++ "/"
    | _ => if isAbsolute path then path ++ "/" else cwd ++ "/" ++ path ++ "/"
    end in
  let resolvedAbsolute := isAbsolute resolvedPath in
  let normalized := normalizeString resolvedPath (negb resolvedAbsolute) in
  if resolvedAbsolute then "/" ++ normalized
  else match normalized with
       | EmptyString => "."
       | _ => normalized
       end.

(** [dirname]: the scan runs from the end down to index 1, past the
    trailing separators and past the last segment; [afterSegment] is
    what is left of the indices 1.. when it stops, last first. *)
Definition dirname (path : string) : string :=
  match list_ascii_of_string path with
  | [] => "."
  | first :: body =>
      let hasRoot := isSlash first in
      let afterSlashes := dropWhile isSlash (rev body) in
      let afterSegment := dropWhile notSlash afterSlashes in
      match afterSegment with
      | [] => if hasRoot then "/" else "."
      | _ :: kept =>
          match kept with
          | [] => if hasRoot then "//" else string_of_list_ascii [first]
          | _ => string_of_list_ascii (first :: rev kept)
          end
      end
  end.

(** [parse(path).dir]: the same scan, down to index 1 for an absolute
    path and to index 0 otherwise. *)
Definition parse_dir (path : string) : string :=
  match list_ascii_of_string path with
  | [] => EmptyString
  | first :: body =>
      let isAbs := isSlash first in
      let region := if isAbs then body else first :: body in
      let afterSegment := dropWhile notSlash (dropWhile isSlash (rev region)) in
      match afterSegment with
      | [] => if isAbs then "/" else EmptyString
      | _ :: kept =>
          string_of_list_ascii ((if isAbs then [first] else []) ++ rev kept)%list
      end
  end.

(** [basename(path)]: the last segment, trailing separators ignored. *)
Definition basename (path : string) : string :=
  let afterSlashes := dropWhile isSlash (rev (list_ascii_of_string path)) in
  string_of_list_ascii (rev (takeWhile notSlash afterSlashes)).

(** A [for (i = n - 1; i >= 0; --i)] loop with [break]. *)
Fixpoint for_down {St : Type} (n : nat) (body : nat -> St -> St * bool) (st : St) : St :=
  match n with
  | O => st
  | S i => let (st', stop) := body i st in
           if stop then st' else for_down i body st'
  end.

Record BasenameState : Type := {
  b_start : nat; b_end : Z; b_matchedSlash : bool;
  b_extIdx : Z; b_firstNonSlashEnd : Z
}.

Definition basename_ext_body (path suffix : string) (i : nat) (st : BasenameState)
    : BasenameState * bool :=
  if JS.charIs (JS.at_ path i) slash then
    if negb (b_matchedSlash st)
    then ({| b_start := i + 1; b_end := b_end st; b_matchedSlash := b_matchedSlash st;
             b_extIdx := b_extIdx st; b_firstNonSlashEnd := b_firstNonSlashEnd st |},
          true)
    else (st, false)
  else
    let st :=
      if (b_firstNonSlashEnd st =? -1)%Z
      then {| b_start := b_start st; b_end := b_end st; b_matchedSlash := false;
              b_extIdx := b_extIdx st; b_firstNonSlashEnd := Z.of_nat i + 1 |}
      else st in
    if (0 <=? b_extIdx st)%Z then
      match JS.at_ path i, JS.charAt suffix (b_extIdx st) with
      | Some c, Some e =>
          if Ascii.eqb c e then
            ({| b_start := b_start st;
                b_end := if (b_extIdx st - 1 =? -1)%Z then Z.of_nat i else b_end st;
                b_matchedSlash := b_matchedSlash st;
                b_extIdx := (b_extIdx st - 1)%Z;
                b_firstNonSlashEnd := b_firstNonSlashEnd st |}, false)
          else
            ({| b_start := b_start st; b_end := b_firstNonSlashEnd st;
                b_matchedSlash := b_matchedSlash st; b_extIdx := (-1)%Z;
                b_firstNonSlashEnd := b_firstNonSlashEnd st |}, false)
      | _, _ =>
          ({| b_start := b_start st; b_end := b_firstNonSlashEnd st;
              b_matchedSlash := b_matchedSlash st; b_extIdx := (-1)%Z;
              b_firstNonSlashEnd := b_firstNonSlashEnd st |}, false)
      end
    else (st, false).

(** [basename(path, suffix)]. *)
Definition basename_ext (path suffix : string) : string :=
  if JS.truthy suffix && (String.length suffix <=? String.length path) then
    if String.eqb suffix path then EmptyString
    else
      let st :=
        for_down (String.length path) (basename_ext_body path suffix)
          {| b_start := 0; b_end := (-1)%Z; b_matchedSlash := true;
             b_extIdx := (Z.of_nat (String.length suffix) - 1)%Z;
             b_firstNonSlashEnd := (-1)%Z |} in
      let end_ :=
        if (Z.of_nat (b_start st) =? b_end st)%Z then b_firstNonSlashEnd st
        else if (b_end st =? -1)%Z then Z.of_nat (String.length path)
        else b_end st in
      JS.take (Z.to_nat end_ - b_start st) (JS.drop (b_start st) path)
  else basename path.

Record ExtnameState : Type := {
  e_startDot : Z; e_startPart : nat; e_end : Z;
  e_matchedSlash : bool; e_preDotState : Z
}.

Definition extname_body (path : string) (i : nat) (st : ExtnameState)
    : ExtnameState * bool :=
  if JS.charIs (JS.at_ path i) slash then
    if negb (e_matchedSlash st)
    then ({| e_startDot := e_startDot st; e_startPart := i + 1; e_end := e_end st;
             e_matchedSlash := e_matchedSlash st; e_preDotState := e_preDotState st |},
          true)
    else (st, false)
  else
    let st :=
      if (e_end st =? -1)%Z
      then {| e_startDot := e_startDot st; e_startPart := e_startPart st;
              e_end := Z.of_nat i + 1; e_matchedSlash := false;
              e_preDotState := e_preDotState st |}
      else st in
    if JS.charIs (JS.at_ path i) dot then
      if (e_startDot st =? -1)%Z
      then ({| e_startDot := Z.of_nat i; e_startPart := e_startPart st;
               e_end := e_end st; e_matchedSlash := e_matchedSlash st;
               e_preDotState := e_preDotState st |}, false)
      else if negb (e_preDotState st =? 1)%Z
      then ({| e_startDot := e_startDot st; e_startPart := e_startPart st;
               e_end := e_end st; e_matchedSlash := e_matchedSlash st;
               e_preDotState := 1%Z |}, false)
      else (st, false)
    else if negb (e_startDot st =? -1)%Z
    then ({| e_startDot := e_startDot st; e_startPart := e_startPart st;
             e_end := e_end st; e_matchedSlash := e_matchedSlash st;
             e_preDotState := (-1)%Z |}, false)
    else (st, false).

(** [extname(path)]. *)
Definition extname (path : string) : string :=
  let st :=
    for_down (String.length path) (extname_body path)
      {| e_startDot := (-1)%Z; e_startPart := 0; e_end := (-1)%Z;
         e_matchedSlash := true; e_preDotState := 0%Z |} in
  if (e_startDot st =? -1)%Z || (e_end st =? -1)%Z || (e_preDotState st =? 0)%Z
     || ((e_preDotState st =? 1)%Z && (e_startDot st =? e_end st - 1)%Z
         && (e_startDot st =? Z.of_nat (e_startPart st) + 1)%Z)
  then EmptyString
  else JS.substring path (Z.to_nat (e_startDot st)) (Z.to_nat (e_end st)).

End Posix.

(** ** Instances used to evaluate the provider *)

Lemma length_list_ascii_of_string (s : string) :
  List.length (list_ascii_of_string s) = String.length s.
Proof. induction s as [| c s IH]; simpl; [reflexivity | now rewrite IH]. Qed.

Lemma length_string_of_list_ascii (l : list ascii) :
  String.length (string_of_list_ascii l) = List.length l.
Proof. induction l as [| c l IH]; simpl; [reflexivity | now rewrite IH]. Qed.

Lemma dropWhile_length (f : ascii -> bool) (l : list ascii) :
  List.length (Posix.dropWhile f l) <= List.length l.
Proof.
  induction l as [| c l IH]; simpl; [lia |].
  destruct (f c); simpl; lia.
Qed.

Lemma dropWhile_head (f : ascii -> bool) (l : list ascii) c rest :
  Posix.dropWhile f l = c :: rest -> f c = false.
Proof.
  induction l as [| d l IH]; simpl; [discriminate |].
  destruct (f d) eqn:E; [assumption |].
  intros H. injection H as -> _. assumption.
Qed.

Lemma posix_dirname_descends (p : string) :
  Posix.dirname p <> p ->
  String.length (Posix.dirname p) < String.length p
  \/ Posix.dirname (Posix.dirname p) = Posix.dirname p.
Proof.
  intros _. unfold Posix.dirname at 1 3 4.
  rewrite <- (length_list_ascii_of_string p).
  destruct (list_ascii_of_string p) as [| first body]; [right; reflexivity |].
  pose proof (dropWhile_length Posix.isSlash (rev body)) as H1.
  pose proof (dropWhile_length Posix.notSlash (Posix.dropWhile Posix.isSlash (rev body))) as H2.
  rewrite length_rev in H1.
  destruct (Posix.dropWhile Posix.notSlash (Posix.dropWhile Posix.isSlash (rev body)))
    as [| x kept] eqn:Eseg.
  - right. destruct (Posix.isSlash first); reflexivity.
  - left. destruct kept as [| k kept'].
    + destruct (Posix.isSlash first); simpl in *; [| lia].
      destruct (Posix.dropWhile Posix.isSlash (rev body)) as [| c t] eqn:Esl;
        [discriminate |].
      apply dropWhile_head in Esl.
      simpl in Eseg. unfold Posix.notSlash at 1 in Eseg. rewrite Esl in Eseg.
      simpl in Eseg.
      pose proof (dropWhile_length Posix.notSlash t) as H3.
      rewrite Eseg in H3. simpl in *. lia.
    + rewrite length_string_of_list_ascii.
      change (List.length (first :: rev (k :: kept'))) with (S (List.length (rev (k :: kept')))).
      rewrite length_rev. simpl in *. lia.
Qed.

(** [path.posix] in a process whose working directory is [cwd]. *)
Definition posix (cwd : string) : PathLib := {|
  path_join := Posix.join;
  path_resolve := Posix.resolve cwd;
  path_dirname := Posix.dirname;
  path_parse_dir := Posix.parse_dir;
  path_basename := Posix.basename;
  path_basename_ext := Posix.basename_ext;
  path_extname := Posix.extname;
  path_dirname_descends := posix_dirname_descends
|}.

(** A pattern that starts with a quantifier does not compile. *)
Definition startsWithQuantifier (pattern : string) : bool :=
  match pattern with
  | String c _ => Ascii.eqb c "*" || Ascii.eqb c "+" || Ascii.eqb c "?"
  | EmptyString => false
  end.

(** Regular expressions whose pattern has no metacharacter: the pattern
    matches its own text, and there are no capture groups.  Of the
    patterns that do not compile, the engine knows those that start with
    a quantifier, with the error that [new RegExp] throws for them. *)
Definition literalRegExp : RegExpLib := {|
  regexp_error := fun pattern =>
    if startsWithQuantifier pattern
    then Some ("SyntaxError: Invalid regular expression: /" ++ pattern
               ++ "/: Nothing to repeat")
    else None;
  regexp_exec := fun pattern s =>
    option_map (fun i => (i, String.length pattern)) (JS.indexOf s pattern);
  regexp_substitution := fun pattern s replacement =>
    match JS.indexOf s pattern with
    | Some i =>
        JS.getSubstitution pattern (JS.take i s)
          (JS.drop (i + String.length pattern) s) replacement
    | None => EmptyString
    end
|}.

(** Glob patterns without wildcard: a path matches the pattern it equals. *)
Definition literalGlob : GlobLib := {| minimatch := fun path pattern => String.eqb path pattern |}.

(** * Vocabulary of the properties *)

(** ** Occurrences in a string *)

(** [key] occurs in [s] between [pre] and [post]. *)
Definition OccursAt (s key pre post : string) : Prop := s = pre ++ key ++ post.

(** ... and no occurrence starts further to the left. *)
Definition FirstOccurrence (s key pre post : string) : Prop :=
  OccursAt s key pre post
  /\ forall pre' post', OccursAt s key pre' post' -> String.length pre <= String.length pre'.

(** What [s.replace(key, '')] computes. *)
Definition FirstOccurrenceRemoved (s key result : string) : Prop :=
  (exists pre post, FirstOccurrence s key pre post /\ result = pre ++ post)
  \/ ((forall pre post, ~ OccursAt s key pre post) /\ result = s).

(** ** The scan of getUserPath *)

(** Index [i] is skipped by the scan: it follows a backslash which the
    scan itself did not skip. *)
Fixpoint skipped (currentLine : string) (i : nat) : bool :=
  match i with
  | O => false
  | S j => JS.charIs (JS.at_ currentLine j) backslash && negb (skipped currentLine j)
  end.

Definition unescapedQuote (currentLine : string) (i : nat) : bool :=
  negb (skipped currentLine i) && isQuote (JS.at_ currentLine i).

Definition unescapedSeparator (currentLine : string) (i : nat) : bool :=
  negb (skipped currentLine i) && isSeparator (JS.at_ currentLine i).

(** The greatest index below [n] that satisfies [p], or -1. *)
Fixpoint lastIndex (p : nat -> bool) (n : nat) : Z :=
  match n with
  | O => (-1)%Z
  | S m => if p m then Z.of_nat m else lastIndex p m
  end.

(** [i] is the last index in [0, n) that satisfies [p]. *)
Definition LastBelow (p : nat -> bool) (n i : nat) : Prop :=
  i < n /\ p i = true /\ forall j, i < j < n -> p j = false.

Definition NoneBelow (p : nat -> bool) (n : nat) : Prop :=
  forall j, j < n -> p j = false.

(** ** Quote counting *)

Inductive QuoteKind : Type := Single | Double | Backtick.

Definition quoteChar (k : QuoteKind) : ascii :=
  match k with
  | Single => squote
  | Double => dquote
  | Backtick => backtick
  end.

Definition counter (k : QuoteKind) (quotes : Quotes) : Z :=
  match k with
  | Single => single quotes
  | Double => double quotes
  | Backtick => backtick_ quotes
  end.

(** The number of occurrences of the quote [k] in [0, n) that are not
    immediately preceded by a backslash. *)
Definition countNotEscaped (currentLine : string) (k : QuoteKind) (n : nat) : nat :=
  List.length (List.filter (quoteNotEscaped currentLine (quoteChar k)) (seq 0 n)).

(** ** Quoted strings, read left to right

    The reading of a line that the words of the specification call for:
    an unescaped quote opens a string, the next unescaped quote of the
    same kind closes it, and quotes of another kind inside it are plain
    characters. *)











(** ** Mappings and the shapes of a path *)

(** The index of an entry whose key is an array index. *)
Definition entryIndex (entry : string * string) : N :=
  match JS.arrayIndex (fst entry) with
  | Some n => n
  | None => 0%N
  end.

(** Entries by ascending index. *)
Definition IndexAscending (entries : list (string * string)) : Prop :=
  Sorted (fun a b => (entryIndex a <= entryIndex b)%N) entries.

(** The test that makes a mapping win, in the words of the specification. *)
Definition KeyMatches (fragment key : string) : Prop :=
  (exists rest, fragment = key ++ rest) \/ key = "$root".

Definition AsciiLetter (c : ascii) : Prop :=
  65 <= nat_of_ascii c <= 90 \/ 97 <= nat_of_ascii c <= 122.

(** The drive-letter pattern: an ASCII letter, then a colon. *)
Definition DriveLetterPath (s : string) : Prop :=
  exists c rest, s = String c (String ":" rest) /\ AsciiLetter c.

Definition HomeRelative (s : string) : Prop := exists rest, s = String "~" rest.

Definition Contains (s key : string) : Prop := exists pre post, OccursAt s key pre post.

(** A package reference: the line contains require or import, and the
    path starts with an ASCII letter. *)
Definition PackageReference (currentLine insertedPath : string) : Prop :=
  (Contains currentLine "require" \/ Contains currentLine "import")
  /\ exists c rest, insertedPath = String c rest /\ AsciiLetter c.

(** ** Transformation rules *)

Definition withTransformations (cfg : Configuration) (rules : list Transformation)
    : Configuration :=
  {| homeDirectory := homeDirectory cfg;
     workspaceRootPath := workspaceRootPath cfg;
     workspaceFolderPath := workspaceFolderPath cfg;
     pathMappings := pathMappings cfg;
     transformations := rules;
     excludedItems := excludedItems cfg;
     withExtension := withExtension cfg;
     triggerOutsideStrings := triggerOutsideStrings cfg;
     enableFolderTrailingSlash := enableFolderTrailingSlash cfg |}.

(** The replacement text of a rule: its second parameter, and the text
    of [undefined] when it is missing. *)
Definition replacementOf (rule : Transformation) : string :=
  match nth_error (parameters rule) 1 with
  | Some r => r
  | None => "undefined"
  end.

(** The rule declares a file-name pattern, which compiles, and the name
    does not match it. *)
Definition DeclinesFileName {R : RegExpLib} (rule : Transformation) (name : string) : Prop :=
  exists pattern, when_fileName rule = Some pattern /\ pattern <> EmptyString
                  /\ regexp_error pattern = None
                  /\ regexp_exec pattern name = None.

(** The rule declares no file-name pattern, or one that compiles and
    that the name matches. *)
Definition AcceptsFileName {R : RegExpLib} (rule : Transformation) (name : string) : Prop :=
  when_fileName rule = None
  \/ when_fileName rule = Some EmptyString
  \/ exists pattern, when_fileName rule = Some pattern
                     /\ regexp_error pattern = None
                     /\ regexp_exec pattern name <> None.

(** The file-name pattern of the rule does not compile. *)
Definition FileNamePatternFails {R : RegExpLib} (rule : Transformation) (err : string)
    : Prop :=
  exists pattern, when_fileName rule = Some pattern /\ pattern <> EmptyString
                  /\ regexp_error pattern = Some err.

(** The file-name pattern of the rule, when there is one, compiles. *)
Definition FileNamePatternCompiles {R : RegExpLib} (rule : Transformation) : Prop :=
  forall pattern, when_fileName rule = Some pattern -> pattern <> EmptyString ->
                  regexp_error pattern = None.

(** Every pattern of the rule compiles. *)
Definition RuleCompiles {R : RegExpLib} (rule : Transformation) : Prop :=
  FileNamePatternCompiles rule
  /\ forall pattern, nth_error (parameters rule) 0 = Some pattern ->
                     pattern <> EmptyString -> regexp_error pattern = None.

(** ** Replacement texts *)

(** A replacement text without dollar sign stands for itself. *)
Fixpoint noDollar (s : string) : bool :=
  match s with
  | EmptyString => true
  | String c s' => negb (Ascii.eqb c dollar) && noDollar s'
  end.

(** What [s.replace(key, replacement)] computes for such a text. *)
Definition FirstOccurrenceReplaced (s key replacement result : string) : Prop :=
  (exists pre post, FirstOccurrence s key pre post /\ result = pre ++ replacement ++ post)
  \/ ((forall pre post, ~ OccursAt s key pre post) /\ result = s).

(** ** Directories, documents and requests *)

Section Vocabulary.

Context {P : PathLib}.
Variable cfg : Configuration.
Variable fs : FileSystem.

(** The directory [n] parent steps above [dir]. *)
Fixpoint ancestor (n : nat) (dir : string) : string :=
  match n with
  | O => dir
  | S m => ancestor m (path_dirname dir)
  end.

(** The parent step still changes the path. *)
Definition HasParent (dir : string) : Prop := dir <> path_dirname dir.

Definition hasNodeModules (dir : string) : bool :=
  existsSync fs (path_join dir "node_modules").

(** The levels below [n] all have a parent and no node_modules. *)
Definition NoSuccessBelow (currentDir : string) (n : nat) : Prop :=
  forall k, k < n ->
    HasParent (ancestor k currentDir) /\ hasNodeModules (ancestor k currentDir) = false.

(** The directory the relative rules start from: the mapping target
    when there is one, the default directory otherwise. *)
Definition baseDirectory (fileName currentLine : string) (currentPosition : nat)
    : string :=
  let mappingResult := applyMapping cfg (getUserPath currentLine currentPosition) in
  if JS.truthy (currentDir mappingResult) then currentDir mappingResult
  else getCurrentDirectory cfg fileName (insertedPath mappingResult).

(** The line under the cursor and the directory it resolves to. *)
Definition currentLineOf (document : TextDocument) (position : Position) : string :=
  nth (line position) (lines document) EmptyString.

Definition folderPathOf (document : TextDocument) (position : Position) : string :=
  getFolderPath cfg fs (fileName document) (currentLineOf document position)
    (character position).

(** The request passes the trigger gate and the directory check. *)
Definition ReachesListing (document : TextDocument) (position : Position) : Prop :=
  shouldProvide cfg (currentLineOf document position) (character position) = true
  /\ existsSync fs (folderPathOf document position) = true
  /\ lstat_isDirectory fs (folderPathOf document position) = true.

End Vocabulary.

(** ** Listings and candidates *)

(** The entry at [itemPath] can be inspected. *)
Definition statSucceeds (fs : FileSystem) (itemPath : string) : bool :=
  match stat_isDirectory fs itemPath with
  | Some _ => true
  | None => false
  end.

(** An exclusion rule applies to the active file and to the entry. *)
Definition Excludes {G : GlobLib} (currentFile : string) (file : FileInfo)
    (entry : string * string) : Prop :=
  minimatch currentFile (snd entry) = true /\ minimatch (getPath file) (fst entry) = true.

(** What every candidate built from an entry looks like. *)
Definition CandidateShape (cfg : Configuration) (c : CompletionItem) : Prop :=
  kind c = Some File
  /\ insertText c <> None
  /\ (sortText c = Some "d" \/ sortText c = Some "f")
  /\ (command_ c <> None ->
      enableFolderTrailingSlash cfg = true /\ sortText c = Some "d").

(** A rule that has nothing to rewrite with: not a replace rule, or a
    replace rule without a pattern. *)
Definition PatternlessRule (rule : Transformation) : Prop :=
  type_ rule <> "replace"
  \/ nth_error (parameters rule) 0 = None
  \/ nth_error (parameters rule) 0 = Some EmptyString.

(** A rule that cannot rewrite anything and whose file-name pattern, when
    it has one, compiles. *)
Definition InertRule {R : RegExpLib} (rule : Transformation) : Prop :=
  FileNamePatternCompiles rule /\ PatternlessRule rule.

(** * Sample data *)

(** [path.posix] in a process started in /work. *)
Definition posixWork : PathLib := posix "/work".

Definition cancelledToken : CancellationToken := {| isCancellationRequested := true |}.

Definition liveToken : CancellationToken := {| isCancellationRequested := false |}.

(** The line: import, a space, then ./src/ between double quotes. *)
Definition importLine : string :=
  "import " ++ String dquote ("./src/" ++ String dquote EmptyString).

(** The six characters backslash, backslash, double quote, a, b, c. *)
Definition escapedBackslashLine : string :=
  String backslash (String backslash (String dquote "abc")).

(** The line [a\ b]: the space at index 2 is escaped. *)
Definition escapedSpaceLine : string := "a" ++ String backslash " b".

Definition defaultConfiguration : Configuration := {|
  homeDirectory := "/home/user";
  workspaceRootPath := EmptyString;
  workspaceFolderPath := EmptyString;
  pathMappings := [];
  transformations := [];
  excludedItems := [];
  withExtension := false;
  triggerOutsideStrings := false;
  enableFolderTrailingSlash := true
|}.




Definition appConfiguration : Configuration := {|
  homeDirectory := "/home/user";
  workspaceRootPath := "/ws";
  workspaceFolderPath := "/ws/pkg";
  pathMappings := [("lib", "/opt/lib"); ("@app", "${workspace}/src"); ("$root", "${folder}")];
  transformations := [];
  excludedItems := [];
  withExtension := false;
  triggerOutsideStrings := false;
  enableFolderTrailingSlash := true
|}.

Definition emptyFileSystem : FileSystem := {|
  existsSync := fun _ => false;
  lstat_isDirectory := fun _ => false;
  readdir := fun _ => inl "ENOENT";
  stat_isDirectory := fun _ => None
|}.

(** A file system whose only node_modules is /ws/node_modules. *)
Definition workspaceModulesFileSystem : FileSystem := {|
  existsSync := fun p => String.eqb p "/ws/node_modules" || String.eqb p "/ws";
  lstat_isDirectory := fun p => String.eqb p "/ws/node_modules" || String.eqb p "/ws";
  readdir := fun _ => inr [];
  stat_isDirectory := fun _ => None
|}.

(** A workspace folder, no mapping. *)
Definition folderConfiguration : Configuration := {|
  homeDirectory := "/home/user";
  workspaceRootPath := "/ws";
  workspaceFolderPath := "/ws/pkg";
  pathMappings := [];
  transformations := [];
  excludedItems := [];
  withExtension := false;
  triggerOutsideStrings := false;
  enableFolderTrailingSlash := true
|}.

(** A line that opens a double-quoted string holding [fragment]. *)
Definition quoted (before fragment : string) : string :=
  before ++ String dquote fragment.

Definition indexFile : FileInfo :=
  {| getName := "index.ts"; getPath := "/ws/pkg/src/index.ts"; isDirectory := false |}.

Definition extensionConfiguration : Configuration := {|
  homeDirectory := "/home/user";
  workspaceRootPath := EmptyString;
  workspaceFolderPath := EmptyString;
  pathMappings := [];
  transformations := [];
  excludedItems := [];
  withExtension := true;
  triggerOutsideStrings := false;
  enableFolderTrailingSlash := true
|}.

Definition renameRule : Transformation :=
  {| when_fileName := Some "index"; type_ := "replace"; parameters := ["index"; "main"] |}.

Definition specRule : Transformation :=
  {| when_fileName := Some "spec"; type_ := "replace"; parameters := ["main"; "test"] |}.

(** A rule whose file-name pattern is written as a glob. *)
Definition globRule : Transformation :=
  {| when_fileName := Some "*.ts"; type_ := "replace"; parameters := ["index"; "main"] |}.

Definition upperRule : Transformation :=
  {| when_fileName := None; type_ := "replace"; parameters := ["a"; "A"] |}.

(** Every path is a directory that cannot be read. *)
Definition deniedFileSystem : FileSystem := {|
  existsSync := fun _ => true;
  lstat_isDirectory := fun _ => true;
  readdir := fun _ => inl "EACCES";
  stat_isDirectory := fun _ => None
|}.

(** Every directory lists a folder src and a file index.ts. *)
Definition listingFileSystem : FileSystem := {|
  existsSync := fun _ => true;
  lstat_isDirectory := fun _ => true;
  readdir := fun _ => inr ["src"; "index.ts"];
  stat_isDirectory := fun p => Some (String.eqb p "/ws/pkg/src/src")
|}.

(** The file /ws/pkg/src/a.ts, whose only line imports from [./], and
    the cursor before the closing quote. *)
Definition importDocument : TextDocument :=
  {| fileName := "/ws/pkg/src/a.ts"; lines := [quoted "import " ("./" ++ String dquote EmptyString)] |}.

Definition importPosition : Position := {| line := 0; character := 10 |}.

(** A home directory whose name holds two dollar signs in a row. *)
Definition dollarConfiguration : Configuration := {|
  homeDirectory := "/home/a$$b";
  workspaceRootPath := EmptyString;
  workspaceFolderPath := EmptyString;
  pathMappings := [("~h", "${home}/x/${home}/${workspace}")];
  transformations := [];
  excludedItems := [];
  withExtension := false;
  triggerOutsideStrings := false;
  enableFolderTrailingSlash := true
|}.

(** The tests are excluded from the candidates of a.ts. *)
Definition excludingConfiguration : Configuration := {|
  homeDirectory := "/home/user";
  workspaceRootPath := EmptyString;
  workspaceFolderPath := EmptyString;
  pathMappings := [];
  transformations := [];
  excludedItems := [("/ws/pkg/src/b.spec.ts", "/ws/pkg/src/a.ts")];
  withExtension := false;
  triggerOutsideStrings := false;
  enableFolderTrailingSlash := true
|}.

Definition specFile : FileInfo :=
  {| getName := "b.spec.ts"; getPath := "/ws/pkg/src/b.spec.ts"; isDirectory := false |}.

(** A directory with a folder, a file and a link that cannot be
    inspected. *)
Definition brokenLinkFileSystem : FileSystem := {|
  existsSync := fun _ => true;
  lstat_isDirectory := fun _ => true;
  readdir := fun _ => inr ["src"; "dangling"; "index.ts"];
  stat_isDirectory := fun p =>
    if String.eqb p "/ws/pkg/src/dangling" then None
    else Some (String.eqb p "/ws/pkg/src/src")
|}.

(** The file /ws/pkg/src/a.ts with a line that holds no quote, and the
    cursor at its end. *)
Definition plainDocument : TextDocument :=
  {| fileName := "/ws/pkg/src/a.ts"; lines := ["foo bar"] |}.

Definition plainPosition : Position := {| line := 0; character := 7 |}.

(** Three rules that cannot rewrite anything. *)
Definition inertConfiguration : Configuration := {|
  homeDirectory := "/home/user";
  workspaceRootPath := EmptyString;
  workspaceFolderPath := EmptyString;
  pathMappings := [];
  transformations :=
    [ {| when_fileName := None; type_ := "rename"; parameters := ["index"; "main"] |};
      {| when_fileName := None; type_ := "replace"; parameters := [] |};
      {| when_fileName := Some "index"; type_ := "replace";
         parameters := [EmptyString; "main"] |} ];
  excludedItems := [];
  withExtension := false;
  triggerOutsideStrings := false;
  enableFolderTrailingSlash := true
|}.

(** The settings declare the catch-all first, then a mapping for 1. *)
Definition indexKeyConfiguration : Configuration := {|
  homeDirectory := "/home/user";
  workspaceRootPath := EmptyString;
  workspaceFolderPath := EmptyString;
  pathMappings := [("$root", "/R"); ("1", "/ONE")];
  transformations := [];
  excludedItems := [];
  withExtension := false;
  triggerOutsideStrings := false;
  enableFolderTrailingSlash := true
|}.

(** * Properties *)

(** ** Strings *)

Lemma append_empty_r (s : string) : s ++ EmptyString = s.
Proof. induction s as [| c s IH]; simpl; [reflexivity | now rewrite IH]. Qed.

Lemma append_assoc (a b c : string) : (a ++ b) ++ c = a ++ b ++ c.
Proof. induction a as [| x a IH]; simpl; [reflexivity | now rewrite IH]. Qed.

Lemma append_length (a b : string) :
  String.length (a ++ b) = String.length a + String.length b.
Proof. induction a as [| x a IH]; simpl; [reflexivity | now rewrite IH]. Qed.

Lemma take_drop (n : nat) (s : string) : JS.take n s ++ JS.drop n s = s.
Proof.
  revert s. induction n as [| n IH]; intros [| c s]; simpl; try reflexivity.
  now rewrite IH.
Qed.

Lemma take_append (a b : string) : JS.take (String.length a) (a ++ b) = a.
Proof. induction a as [| x a IH]; simpl; [now destruct b | now rewrite IH]. Qed.

Lemma drop_append (a b : string) : JS.drop (String.length a) (a ++ b) = b.
Proof. induction a as [| x a IH]; simpl; [reflexivity | exact IH]. Qed.

Lemma startsWith_append (k rest : string) : JS.startsWith (k ++ rest) k = true.
Proof.
  induction k as [| c k IH]; simpl; [reflexivity |].
  now rewrite Ascii.eqb_refl, IH.
Qed.

Lemma startsWith_inv (s k : string) :
  JS.startsWith s k = true -> exists rest, s = k ++ rest.
Proof.
  revert s. induction k as [| c k IH]; intros s H.
  - exists s. reflexivity.
  - destruct s as [| d s]; simpl in H; [discriminate |].
    apply andb_prop in H as [Hc Hk]. apply Ascii.eqb_eq in Hc as ->.
    destruct (IH _ Hk) as [rest ->]. exists rest. reflexivity.
Qed.

Lemma startsWith_iff (s k : string) :
  JS.startsWith s k = true <-> exists rest, s = k ++ rest.
Proof.
  split; [apply startsWith_inv |].
  intros [rest ->]. apply startsWith_append.
Qed.

Lemma indexOf_Some (s key : string) (i : nat) :
  JS.indexOf s key = Some i ->
  FirstOccurrence s key (JS.take i s) (JS.drop (i + String.length key) s)
  /\ String.length (JS.take i s) = i.
Proof.
  revert i. induction s as [| c s IH]; intros i H.
  - simpl in H. destruct key as [| k key]; simpl in H; [| discriminate].
    injection H as <-. simpl. repeat split.
    intros pre' post' _. simpl. lia.
  - cbn [JS.indexOf] in H.
    destruct (JS.startsWith (String c s) key) eqn:Hsw.
    + injection H as <-.
      destruct (startsWith_inv _ _ Hsw) as [rest Hrest].
      cbn [JS.take Nat.add]. repeat split.
      * unfold OccursAt. rewrite Hrest at 2. rewrite drop_append.
        simpl. exact Hrest.
      * intros pre' post' _. simpl. lia.
    + destruct (JS.indexOf s key) as [j |] eqn:Hj; simpl in H; [| discriminate].
      injection H as <-.
      destruct (IH j eq_refl) as [[Hocc Hmin] Hlen].
      cbn [JS.take JS.drop Nat.add]. repeat split.
      * unfold OccursAt in *. simpl. now rewrite <- Hocc.
      * intros pre' post' Hocc'. unfold OccursAt in Hocc'.
        destruct pre' as [| d pre'].
        -- simpl in Hocc'. rewrite Hocc', startsWith_append in Hsw. discriminate.
        -- simpl in Hocc'. injection Hocc' as _ Hocc'.
           specialize (Hmin pre' post' Hocc'). simpl. lia.
      * simpl. now rewrite Hlen.
Qed.

Lemma indexOf_None (s key : string) :
  JS.indexOf s key = None -> forall pre post, ~ OccursAt s key pre post.
Proof.
  induction s as [| c s IH]; intros H pre post Hocc; unfold OccursAt in Hocc.
  - simpl in H. destruct key; simpl in H; [discriminate |].
    destruct pre; discriminate.
  - cbn [JS.indexOf] in H.
    destruct (JS.startsWith (String c s) key) eqn:Hsw; [discriminate |].
    destruct (JS.indexOf s key) eqn:Hj; [discriminate |].
    destruct pre as [| d pre].
    + simpl in Hocc. rewrite Hocc, startsWith_append in Hsw. discriminate.
    + simpl in Hocc. injection Hocc as _ Hocc.
      exact (IH eq_refl pre post Hocc).
Qed.

Lemma includes_iff (s key : string) :
  JS.includes s key = true <-> exists pre post, OccursAt s key pre post.
Proof.
  unfold JS.includes. destruct (JS.indexOf s key) as [i |] eqn:Hi.
  - split; [| reflexivity]. intros _.
    destruct (indexOf_Some _ _ _ Hi) as [[Hocc _] _]. eauto.
  - split; [discriminate |]. intros (pre & post & Hocc).
    exfalso. exact (indexOf_None _ _ Hi _ _ Hocc).
Qed.

Lemma replace_empty (s key : string) :
  FirstOccurrenceRemoved s key (JS.replace s key EmptyString).
Proof.
  unfold JS.replace. destruct (JS.indexOf s key) as [i |] eqn:Hi.
  - left. destruct (indexOf_Some _ _ _ Hi) as [Hfirst _].
    exists (JS.take i s), (JS.drop (i + String.length key) s).
    split; [exact Hfirst | reflexivity].
  - right. split; [apply indexOf_None; exact Hi | reflexivity].
Qed.

(** When the key is a prefix, removing its first occurrence strips it. *)
Lemma replace_empty_prefix (key rest : string) :
  JS.replace (key ++ rest) key EmptyString = rest.
Proof.
  unfold JS.replace.
  assert (H : JS.indexOf (key ++ rest) key = Some 0).
  { destruct (key ++ rest) eqn:E; simpl.
    - destruct key; [reflexivity | discriminate].
    - rewrite <- E, startsWith_append. reflexivity. }
  rewrite H. cbn [Nat.add JS.getSubstitution].
  rewrite drop_append.
  destruct (key ++ rest); reflexivity.
Qed.

(** ** getUserPath: the extracted fragment *)

Lemma lastIndex_spec (p : nat -> bool) (n : nat) :
  (lastIndex p n = (-1)%Z /\ NoneBelow p n)
  \/ (exists i, lastIndex p n = Z.of_nat i /\ LastBelow p n i).
Proof.
  induction n as [| n IH]; simpl.
  - left. split; [reflexivity |]. intros j Hj. lia.
  - destruct (p n) eqn:Hp.
    + right. exists n. split; [reflexivity |]. repeat split; auto; intros; lia.
    + destruct IH as [[H1 H2] | (i & H1 & Hlt & Hpi & Hafter)].
      * left. split; [assumption |]. intros j Hj.
        destruct (Nat.eq_dec j n) as [-> |]; [assumption | apply H2; lia].
      * right. exists i. split; [assumption |]. repeat split; auto.
        intros j Hj. destruct (Nat.eq_dec j n) as [-> |]; [assumption | apply Hafter; lia].
Qed.

Lemma lastIndex_ext (p : nat -> bool) (n m : nat) :
  n <= m -> (forall j, n <= j < m -> p j = false) -> lastIndex p m = lastIndex p n.
Proof.
  induction m as [| m IH]; intros Hle Hp.
  - replace n with 0 by lia. reflexivity.
  - destruct (Nat.eq_dec n (S m)) as [-> | Hne]; [reflexivity |].
    simpl. rewrite Hp by lia. apply IH; [lia |]. intros j Hj. apply Hp. lia.
Qed.

Lemma separator_not_quote (c : option ascii) : isSeparator c = true -> isQuote c = false.
Proof.
  destruct c as [a |]; [| discriminate].
  unfold isSeparator, isQuote, JS.charIs. intros H.
  repeat (apply orb_prop in H as [H | H]);
    try (apply Ascii.eqb_eq in H; subst a; reflexivity).
Qed.

Lemma backslash_not_delimiter (c : option ascii) :
  JS.charIs c backslash = true -> isSeparator c = false /\ isQuote c = false.
Proof.
  destruct c as [a |]; [| discriminate].
  unfold JS.charIs. intros H. apply Ascii.eqb_eq in H. subst a. split; reflexivity.
Qed.

(** The loop computes the two last indices, whatever fuel is left over. *)
Lemma getUserPath_scan_spec (currentLine : string) (currentPosition : nat) :
  forall fuel i lastQuote lastSeparator,
    currentPosition - i <= fuel ->
    (i < currentPosition -> skipped currentLine i = false) ->
    lastQuote = lastIndex (unescapedQuote currentLine) (Nat.min i currentPosition) ->
    lastSeparator = lastIndex (unescapedSeparator currentLine) (Nat.min i currentPosition) ->
    getUserPath_scan fuel currentLine currentPosition i lastQuote lastSeparator
    = (lastIndex (unescapedQuote currentLine) currentPosition,
       lastIndex (unescapedSeparator currentLine) currentPosition).
Proof.
  induction fuel as [| fuel IH]; intros i lq ls Hfuel Hskip Hq Hs.
  - simpl. replace (Nat.min i currentPosition) with currentPosition in * by lia.
    now subst.
  - cbn [getUserPath_scan]. destruct (i <? currentPosition) eqn:Hlt.
    2: { apply Nat.ltb_ge in Hlt.
         replace (Nat.min i currentPosition) with currentPosition in * by lia.
         now subst. }
    apply Nat.ltb_lt in Hlt. specialize (Hskip Hlt).
    replace (Nat.min i currentPosition) with i in * by lia.
    destruct (JS.charIs (JS.at_ currentLine i) backslash) eqn:Hb.
    + (* a backslash: index i + 1 is skipped *)
      destruct (backslash_not_delimiter _ Hb) as [Hns Hnq].
      assert (Hsk1 : skipped currentLine (i + 1) = true).
      { replace (i + 1) with (S i) by lia. simpl. now rewrite Hb, Hskip. }
      assert (Hsk2 : skipped currentLine (i + 2) = false).
      { replace (i + 2) with (S (i + 1)) by lia. simpl. rewrite Hsk1.
        apply andb_false_r. }
      apply IH; [lia | intros _; exact Hsk2 | |].
      * subst lq. symmetry. apply lastIndex_ext; [lia |].
        intros j Hj. unfold unescapedQuote.
        destruct (Nat.eq_dec j i) as [-> |]; [now rewrite Hnq, andb_false_r |].
        replace j with (i + 1) by lia. now rewrite Hsk1.
      * subst ls. symmetry. apply lastIndex_ext; [lia |].
        intros j Hj. unfold unescapedSeparator.
        destruct (Nat.eq_dec j i) as [-> |]; [now rewrite Hns, andb_false_r |].
        replace j with (i + 1) by lia. now rewrite Hsk1.
    + assert (Hsk1 : skipped currentLine (i + 1) = false).
      { replace (i + 1) with (S i) by lia. simpl. now rewrite Hb. }
      assert (Hmin : Nat.min (i + 1) currentPosition = S i) by lia.
      destruct (isSeparator (JS.at_ currentLine i)) eqn:Hsep.
      * apply IH; [lia | intros _; exact Hsk1 | |]; rewrite Hmin; simpl.
        -- unfold unescapedQuote at 1.
           now rewrite (separator_not_quote _ Hsep), andb_false_r.
        -- unfold unescapedSeparator at 1. now rewrite Hskip, Hsep.
      * destruct (isQuote (JS.at_ currentLine i)) eqn:Hquo.
        -- apply IH; [lia | intros _; exact Hsk1 | |]; rewrite Hmin; simpl.
           ++ unfold unescapedQuote at 1. now rewrite Hskip, Hquo.
           ++ unfold unescapedSeparator at 1. now rewrite Hsep, andb_false_r.
        -- apply IH; [lia | intros _; exact Hsk1 | |]; rewrite Hmin; simpl.
           ++ unfold unescapedQuote at 1. now rewrite Hquo, andb_false_r.
           ++ unfold unescapedSeparator at 1. now rewrite Hsep, andb_false_r.
Qed.

Lemma getUserPath_start_spec (currentLine : string) (currentPosition : nat) :
  getUserPath_start currentLine currentPosition
  = if negb (lastIndex (unescapedQuote currentLine) currentPosition =? -1)%Z
    then lastIndex (unescapedQuote currentLine) currentPosition
    else lastIndex (unescapedSeparator currentLine) currentPosition.
Proof.
  unfold getUserPath_start.
  rewrite (getUserPath_scan_spec currentLine currentPosition); try reflexivity; lia.
Qed.

(** C5, as stated, fails: a character that immediately follows a
    backslash does act as a delimiter when that backslash is itself
    escaped.  In [escapedBackslashLine] the double quote at index 2 follows
    the backslash at index 1 and is the start of the fragment. *)
Lemma getUserPath_quote_after_escaped_backslash :
  JS.at_ escapedBackslashLine 1 = Some backslash
  /\ JS.at_ escapedBackslashLine 2 = Some dquote
  /\ getUserPath_start escapedBackslashLine 6 = 2%Z
  /\ getUserPath escapedBackslashLine 6 = "abc".
Proof. repeat split. Qed.

(** C5 (amended): [getUserPath] returns the substring from [start + 1] to
    the cursor, where [start] is the index of the last unescaped quote in
    [0, cursor) if there is one (whatever separators follow it), else the
    index of the last unescaped separator, else -1; a character is
    escaped, and then never a delimiter, when it immediately follows a
    backslash that the scan did not itself skip.  On [importLine] with
    the cursor before the closing quote the fragment is [./src/]. *)
Theorem getUserPath_fragment :
  (forall (currentLine : string) (currentPosition : nat),
      let start := getUserPath_start currentLine currentPosition in
      getUserPath currentLine currentPosition
      = JS.substring currentLine (Z.to_nat (start + 1)) currentPosition
      /\ ((exists i, LastBelow (unescapedQuote currentLine) currentPosition i
                     /\ start = Z.of_nat i)
          \/ (NoneBelow (unescapedQuote currentLine) currentPosition
              /\ exists i, LastBelow (unescapedSeparator currentLine) currentPosition i
                           /\ start = Z.of_nat i)
          \/ (NoneBelow (unescapedQuote currentLine) currentPosition
              /\ NoneBelow (unescapedSeparator currentLine) currentPosition
              /\ start = (-1)%Z))
      /\ (forall i, skipped currentLine i = true -> start <> Z.of_nat i))
  /\ getUserPath importLine 14 = "./src/".
Proof.
  split; [| reflexivity].
  intros currentLine currentPosition start.
  assert (Hstart : start = getUserPath_start currentLine currentPosition) by reflexivity.
  rewrite getUserPath_start_spec in Hstart.
  assert (Hcases :
    (exists i, LastBelow (unescapedQuote currentLine) currentPosition i
               /\ start = Z.of_nat i)
    \/ (NoneBelow (unescapedQuote currentLine) currentPosition
        /\ exists i, LastBelow (unescapedSeparator currentLine) currentPosition i
                     /\ start = Z.of_nat i)
    \/ (NoneBelow (unescapedQuote currentLine) currentPosition
        /\ NoneBelow (unescapedSeparator currentLine) currentPosition
        /\ start = (-1)%Z)).
  { destruct (lastIndex_spec (unescapedQuote currentLine) currentPosition)
      as [[Hq Hnq] | (i & Hq & Hlast)]; rewrite Hq in Hstart.
    - simpl in Hstart.
      destruct (lastIndex_spec (unescapedSeparator currentLine) currentPosition)
        as [[Hs Hns] | (j & Hs & Hlast)]; rewrite Hs in Hstart.
      + right. right. auto.
      + right. left. split; [assumption |]. exists j. auto.
    - replace (Z.of_nat i =? -1)%Z with false in Hstart
        by (symmetry; apply Z.eqb_neq; lia).
      left. exists i. auto. }
  split; [reflexivity |]. split; [exact Hcases |].
  intros i Hsk Heq.
  destruct Hcases as [(j & (_ & Hj & _) & Hs) | [(_ & j & (_ & Hj & _) & Hs) | (_ & _ & Hs)]].
  - assert (j = i) by lia. subst j.
    unfold unescapedQuote in Hj. rewrite Hsk in Hj. discriminate.
  - assert (j = i) by lia. subst j.
    unfold unescapedSeparator in Hj. rewrite Hsk in Hj. discriminate.
  - lia.
Qed.

Lemma getUserPath_fragment_witness :
  skipped escapedSpaceLine 2 = true
  /\ getUserPath_start escapedSpaceLine 4 <> 2%Z
  /\ getUserPath escapedSpaceLine 4 = escapedSpaceLine.
Proof.
  split; [reflexivity |]. split.
  - exact (proj2 (proj2 (proj1 getUserPath_fragment escapedSpaceLine 4)) 2 eq_refl).
  - reflexivity.
Defined.

(** ** shouldProvide: the trigger gate *)

Lemma countNotEscaped_S (currentLine : string) (k : QuoteKind) (n : nat) :
  countNotEscaped currentLine k (S n)
  = countNotEscaped currentLine k n
    + (if quoteNotEscaped currentLine (quoteChar k) n then 1 else 0).
Proof.
  unfold countNotEscaped. rewrite seq_S, filter_app, length_app. simpl.
  destruct (quoteNotEscaped currentLine (quoteChar k) n); reflexivity.
Qed.

Lemma shouldProvide_scan_S (currentLine : string) (n : nat) :
  shouldProvide_scan currentLine (S n)
  = shouldProvide_step currentLine (shouldProvide_scan currentLine n) n.
Proof. unfold shouldProvide_scan. rewrite seq_S, fold_left_app. reflexivity. Qed.

Lemma shouldProvide_step_counter (currentLine : string) (quotes : Quotes) (i : nat)
    (k : QuoteKind) :
  counter k (shouldProvide_step currentLine quotes i)
  = if quoteNotEscaped currentLine (quoteChar k) i
    then toggle (counter k quotes) else counter k quotes.
Proof.
  unfold shouldProvide_step.
  destruct k; simpl;
    destruct (quoteNotEscaped currentLine squote i),
             (quoteNotEscaped currentLine dquote i),
             (quoteNotEscaped currentLine backtick i); reflexivity.
Qed.

(** Each counter is 1 when its quote was seen an odd number of times, and
    0 otherwise. *)
Lemma shouldProvide_scan_parity (currentLine : string) (k : QuoteKind) (n : nat) :
  counter k (shouldProvide_scan currentLine n)
  = if Nat.odd (countNotEscaped currentLine k n) then 1%Z else 0%Z.
Proof.
  induction n as [| n IH]; [destruct k; reflexivity |].
  rewrite shouldProvide_scan_S, shouldProvide_step_counter, countNotEscaped_S, IH.
  destruct (quoteNotEscaped currentLine (quoteChar k) n).
  - replace (countNotEscaped currentLine k n + 1) with (S (countNotEscaped currentLine k n))
      by lia.
    rewrite Nat.odd_succ, <- Nat.negb_odd.
    destruct (Nat.odd (countNotEscaped currentLine k n)); reflexivity.
  - now rewrite Nat.add_0_r.
Qed.











(** ** applyMapping: the path mapper *)

Lemma mappingApplies_iff (fragment key : string) :
  mappingApplies fragment key = true <-> KeyMatches fragment key.
Proof.
  unfold mappingApplies, KeyMatches.
  rewrite orb_true_iff, startsWith_iff, String.eqb_eq. reflexivity.
Qed.

Lemma applyMapping_some_skip (before rest : list (string * string)) (st : MappingResult) :
  (forall k t, In (k, t) before -> mappingApplies (insertedPath st) k = false) ->
  applyMapping_some (before ++ rest) st = applyMapping_some rest st.
Proof.
  induction before as [| [k t] before IH]; intros Hno; [reflexivity |].
  simpl. rewrite (Hno k t (or_introl eq_refl)).
  apply IH. intros k' t' Hin. apply (Hno k' t'). now right.
Qed.

(** *** The order of Object.keys *)

Lemma insertIndexed_In (n : N) (entry : string * string)
    (l : list (N * (string * string))) (x : N * (string * string)) :
  In x (JS.insertIndexed n entry l) <-> x = (n, entry) \/ In x l.
Proof.
  induction l as [| [m e] l IH]; simpl.
  - intuition congruence.
  - destruct (n <? m)%N; simpl; [intuition congruence |].
    rewrite IH. intuition congruence.
Qed.

Lemma indexedEntries_In (l : list (string * string)) (n : N) (entry : string * string) :
  In (n, entry) (JS.indexedEntries l)
  <-> In entry l /\ JS.arrayIndex (fst entry) = Some n.
Proof.
  induction l as [| e l IH]; simpl; [tauto |].
  destruct (JS.arrayIndex (fst e)) as [m |] eqn:He.
  - rewrite insertIndexed_In, IH. split.
    + intros [Heq | [Hin Hidx]]; [injection Heq as -> ->; auto | auto].
    + intros [[<- | Hin] Hidx]; [left; congruence | auto].
  - rewrite IH. split.
    + intros [Hin Hidx]. auto.
    + intros [[<- | Hin] Hidx]; [congruence | auto].
Qed.

Lemma ownEntries_In (l : list (string * string)) (entry : string * string) :
  In entry (JS.ownEntries l) <-> In entry l.
Proof.
  unfold JS.ownEntries. rewrite in_app_iff, in_map_iff, filter_In. split.
  - intros [([n e] & <- & Hin) | [Hin _]]; [| exact Hin].
    apply indexedEntries_In in Hin. tauto.
  - intros Hin. unfold JS.isNamedKey.
    destruct (JS.arrayIndex (fst entry)) as [n |] eqn:He; [left | right; auto].
    exists (n, entry). split; [reflexivity |]. apply indexedEntries_In. auto.
Qed.

Lemma ownEntries_named (l : list (string * string)) :
  (forall key target, In (key, target) l -> JS.arrayIndex key = None) ->
  JS.ownEntries l = l.
Proof.
  intros Hnamed. unfold JS.ownEntries.
  assert (Hidx : JS.indexedEntries l = []).
  { induction l as [| [k t] l IH]; [reflexivity |]. simpl.
    rewrite (Hnamed k t (or_introl eq_refl)).
    apply IH. intros key target Hin. apply (Hnamed key target). now right. }
  rewrite Hidx. simpl.
  induction l as [| [k t] l IH]; [reflexivity |]. simpl. unfold JS.isNamedKey at 1.
  simpl. rewrite (Hnamed k t (or_introl eq_refl)). f_equal.
  apply IH.
  - intros key target Hin. apply (Hnamed key target). now right.
  - simpl in Hidx. rewrite (Hnamed k t (or_introl eq_refl)) in Hidx. exact Hidx.
Qed.

Lemma insertIndexed_sorted (n : N) (entry : string * string)
    (l : list (N * (string * string))) :
  Sorted (fun a b => (fst a <= fst b)%N) l ->
  Sorted (fun a b => (fst a <= fst b)%N) (JS.insertIndexed n entry l).
Proof.
  induction l as [| [m e] l IH]; intros Hs; simpl.
  - constructor; constructor.
  - destruct (n <? m)%N eqn:E.
    + constructor; [exact Hs |]. constructor. simpl. apply N.ltb_lt in E. lia.
    + apply N.ltb_ge in E. inversion Hs as [| x xs Hs' Hhd]; subst.
      constructor; [apply IH; exact Hs' |].
      destruct l as [| [m' e'] l']; simpl.
      * constructor. simpl. exact E.
      * destruct (n <? m')%N; constructor; simpl; [exact E |].
        inversion Hhd; subst. assumption.
Qed.

Lemma indexedEntries_sorted (l : list (string * string)) :
  Sorted (fun a b => (fst a <= fst b)%N) (JS.indexedEntries l).
Proof.
  induction l as [| e l IH]; simpl; [constructor |].
  destruct (JS.arrayIndex (fst e)); [apply insertIndexed_sorted |]; exact IH.
Qed.

Lemma indexed_ascending (l : list (N * (string * string))) :
  (forall n entry, In (n, entry) l -> JS.arrayIndex (fst entry) = Some n) ->
  Sorted (fun a b => (fst a <= fst b)%N) l ->
  IndexAscending (map snd l).
Proof.
  unfold IndexAscending.
  induction l as [| [n e] l IH]; intros Hidx Hs; simpl; [constructor |].
  inversion Hs as [| x xs Hs' Hhd]; subst.
  constructor.
  - apply IH; [| exact Hs']. intros m entry Hin. apply Hidx. now right.
  - destruct l as [| [m e'] l']; simpl; constructor.
    inversion Hhd; subst. simpl in *. unfold entryIndex.
    rewrite (Hidx n e (or_introl eq_refl)).
    rewrite (Hidx m e' (or_intror (or_introl eq_refl))). assumption.
Qed.

(** C3, as stated, fails: the mappings are not examined in declaration
    order.  With the catch-all [$root] declared before a mapping for [1],
    the fragment [1/x] is resolved by the mapping for [1], which
    [Object.keys] lists first, although the first declared mapping
    matches. *)
Lemma applyMapping_integer_key_first :
  pathMappings indexKeyConfiguration = [("$root", "/R"); ("1", "/ONE")]
  /\ KeyMatches "1/x" "$root"
  /\ applyMapping indexKeyConfiguration "1/x"
     = {| currentDir := "/ONE"; insertedPath := "/x" |}
  /\ applyMapping indexKeyConfiguration "1/x"
     <> {| currentDir := substitutePlaceholders indexKeyConfiguration "/R";
           insertedPath := JS.replace "1/x" "$root" EmptyString |}.
Proof.
  split; [reflexivity |]. split; [right; reflexivity |].
  split; [reflexivity | discriminate].
Qed.

(** C3 (amended): the mappings are examined in the order in which
    [Object.keys] lists them, that is, the keys that are array indices
    first, by ascending index, then the other keys in declaration order
    (so in declaration order when no key is an integer), and the first one
    whose key is a prefix of the fragment, or is the literal [$root],
    wins: then [currentDir] is its target path with the placeholders
    substituted and [insertedPath] is the fragment with the first textual
    occurrence of the key removed (the rest of the fragment when the key
    is its prefix); when no mapping matches, [currentDir] is absent (the
    empty string) and [insertedPath] is the fragment unchanged.  With the
    mapping of [@app] to [${workspace}/src] and the workspace root [/ws],
    the fragment [@app/util] yields [/ws/src] and [/util]. *)
Theorem applyMapping_first_match :
  (forall mappings : list (string * string),
      (exists indexed,
          JS.ownEntries mappings
          = (indexed
             ++ List.filter (fun entry => JS.isNamedKey (fst entry)) mappings)%list
          /\ IndexAscending indexed
          /\ forall entry, In entry indexed
                           <-> In entry mappings /\ JS.isNamedKey (fst entry) = false)
      /\ ((forall key target, In (key, target) mappings -> JS.arrayIndex key = None) ->
          JS.ownEntries mappings = mappings))
  /\ (forall cfg fragment before key target after,
         JS.ownEntries (pathMappings cfg) = (before ++ (key, target) :: after)%list ->
         (forall k t, In (k, t) before -> ~ KeyMatches fragment k) ->
         KeyMatches fragment key ->
         currentDir (applyMapping cfg fragment) = substitutePlaceholders cfg target
         /\ FirstOccurrenceRemoved fragment key (insertedPath (applyMapping cfg fragment))
         /\ (forall rest, fragment = key ++ rest ->
             insertedPath (applyMapping cfg fragment) = rest))
  /\ (forall cfg fragment,
         (forall k t, In (k, t) (pathMappings cfg) -> ~ KeyMatches fragment k) ->
         applyMapping cfg fragment
         = {| currentDir := EmptyString; insertedPath := fragment |})
  /\ (forall cfg,
         pathMappings cfg = [("@app", "${workspace}/src")] ->
         workspaceRootPath cfg = "/ws" ->
         applyMapping cfg "@app/util"
         = {| currentDir := "/ws/src"; insertedPath := "/util" |}).
Proof.
  split; [| split; [| split]].
  - intros mappings. split; [| apply ownEntries_named].
    exists (map snd (JS.indexedEntries mappings)). split; [reflexivity |]. split.
    + apply indexed_ascending; [| apply indexedEntries_sorted].
      intros n entry Hin. apply indexedEntries_In in Hin. tauto.
    + intros entry. rewrite in_map_iff. unfold JS.isNamedKey. split.
      * intros ([n e] & <- & Hin). apply indexedEntries_In in Hin as [Hin Hidx].
        simpl. now rewrite Hidx.
      * intros [Hin Hidx].
        destruct (JS.arrayIndex (fst entry)) as [n |] eqn:He; [| discriminate].
        exists (n, entry). split; [reflexivity |]. apply indexedEntries_In. auto.
  - intros cfg fragment before key target after Hmap Hbefore Hkey.
    unfold applyMapping. rewrite Hmap, map_app. cbn [map fst snd].
    rewrite applyMapping_some_skip.
    + cbn [applyMapping_some insertedPath].
      apply mappingApplies_iff in Hkey. rewrite Hkey. cbn [currentDir insertedPath].
      split; [reflexivity |]. split; [apply replace_empty |].
      intros rest ->. apply replace_empty_prefix.
    + intros k t Hin. cbn [insertedPath].
      apply in_map_iff in Hin as ([k0 t0] & Heq & Hin). simpl in Heq.
      injection Heq as -> _.
      destruct (mappingApplies fragment k) eqn:E; [| reflexivity].
      exfalso. apply (Hbefore k t0 Hin). now apply mappingApplies_iff.
  - intros cfg fragment Hno. unfold applyMapping.
    rewrite <- (app_nil_r (map _ (JS.ownEntries (pathMappings cfg)))).
    rewrite applyMapping_some_skip; [reflexivity |].
    intros k t Hin. cbn [insertedPath].
    apply in_map_iff in Hin as ([k0 t0] & Heq & Hin). simpl in Heq.
    injection Heq as -> _. apply (proj1 (ownEntries_In _ _)) in Hin.
    destruct (mappingApplies fragment k) eqn:E; [| reflexivity].
    exfalso. apply (Hno k t0 Hin). now apply mappingApplies_iff.
  - intros cfg Hmap Hroot. unfold applyMapping, substitutePlaceholders.
    rewrite Hmap, Hroot. cbn [map fst snd JS.truthy].
    destruct (JS.truthy (workspaceFolderPath cfg)); reflexivity.
Qed.

Lemma applyMapping_first_match_witness :
  (JS.ownEntries (pathMappings indexKeyConfiguration) = [("1", "/ONE"); ("$root", "/R")]
   /\ JS.ownEntries (pathMappings appConfiguration) = pathMappings appConfiguration)
  /\ (currentDir (applyMapping appConfiguration "@app/util") = "/ws/src"
      /\ FirstOccurrenceRemoved "@app/util" "@app"
           (insertedPath (applyMapping appConfiguration "@app/util"))
      /\ (forall rest, "@app/util" = "@app" ++ rest ->
          insertedPath (applyMapping appConfiguration "@app/util") = rest))
  /\ applyMapping defaultConfiguration "./x"
     = {| currentDir := EmptyString; insertedPath := "./x" |}
  /\ applyMapping folderConfiguration "@app/util"
     = {| currentDir := EmptyString; insertedPath := "@app/util" |}
  /\ applyMapping
       {| homeDirectory := "/home/user"; workspaceRootPath := "/ws";
          workspaceFolderPath := EmptyString;
          pathMappings := [("@app", "${workspace}/src")];
          transformations := []; excludedItems := []; withExtension := false;
          triggerOutsideStrings := false; enableFolderTrailingSlash := false |}
       "@app/util"
     = {| currentDir := "/ws/src"; insertedPath := "/util" |}.
Proof.
  split; [split | split; [| split; [| split]]].
  - reflexivity.
  - apply (proj2 (proj1 applyMapping_first_match (pathMappings appConfiguration))).
    intros key target [Heq | [Heq | [Heq | []]]]; injection Heq as <- _; reflexivity.
  - refine (proj1 (proj2 applyMapping_first_match) appConfiguration "@app/util"
              [("lib", "/opt/lib")] "@app" "${workspace}/src" [("$root", "${folder}")]
              eq_refl _ _).
    + intros k t [Heq | []]. injection Heq as <- <-.
      intros [[rest Hrest] | Hroot]; discriminate.
    + left. exists "/util". reflexivity.
  - apply (proj1 (proj2 (proj2 applyMapping_first_match))).
    intros k t [].
  - apply (proj1 (proj2 (proj2 applyMapping_first_match))).
    intros k t [].
  - apply (proj2 (proj2 (proj2 applyMapping_first_match))); reflexivity.
Defined.

(** ** getNodeModulesPath: the package directory locator *)

Section Locator.

Context {P : PathLib}.
Variable cfg : Configuration.
Variable fs : FileSystem.

(** One turn of the loop. *)
Lemma getNodeModulesPath_walk_unfold_if (rootPath currentDir : string) :
  getNodeModulesPath_walk fs rootPath currentDir
  = if String.eqb currentDir (path_dirname currentDir)
    then path_join rootPath "node_modules"
    else if existsSync fs (path_join currentDir "node_modules")
         then path_join currentDir "node_modules"
         else getNodeModulesPath_walk fs rootPath (path_dirname currentDir).
Proof.
  rewrite getNodeModulesPath_walk_equation_1.
  assert (H : forall r : {b : bool | String.eqb currentDir (path_dirname currentDir) = b},
             getNodeModulesPath_walk_unfold_clause_1 fs rootPath currentDir r
             = if proj1_sig r then path_join rootPath "node_modules"
               else if existsSync fs (path_join currentDir "node_modules")
                    then path_join currentDir "node_modules"
                    else getNodeModulesPath_walk fs rootPath (path_dirname currentDir)).
  { intros [[] e]; reflexivity. }
  rewrite H. reflexivity.
Qed.

Lemma NoSuccessBelow_step (currentDir : string) (n : nat) :
  NoSuccessBelow fs currentDir (S n) -> NoSuccessBelow fs (path_dirname currentDir) n.
Proof. intros H k Hk. apply (H (S k)). lia. Qed.

Lemma getNodeModulesPath_walk_found (rootPath : string) (n : nat) :
  forall currentDir,
    NoSuccessBelow fs currentDir n ->
    HasParent (ancestor n currentDir) ->
    hasNodeModules fs (ancestor n currentDir) = true ->
    getNodeModulesPath_walk fs rootPath currentDir
    = path_join (ancestor n currentDir) "node_modules".
Proof.
  induction n as [| n IH]; intros currentDir Hbelow Hpar Hex;
    rewrite getNodeModulesPath_walk_unfold_if.
  - simpl in *. apply String.eqb_neq in Hpar. rewrite Hpar.
    unfold hasNodeModules in Hex. now rewrite Hex.
  - destruct (Hbelow 0 (Nat.lt_0_succ n)) as [Hp0 He0]. simpl in Hp0, He0.
    apply String.eqb_neq in Hp0. rewrite Hp0.
    unfold hasNodeModules in He0. rewrite He0.
    apply IH; auto using NoSuccessBelow_step.
Qed.

Lemma getNodeModulesPath_walk_fallback (rootPath : string) (n : nat) :
  forall currentDir,
    NoSuccessBelow fs currentDir n ->
    ~ HasParent (ancestor n currentDir) ->
    getNodeModulesPath_walk fs rootPath currentDir = path_join rootPath "node_modules".
Proof.
  induction n as [| n IH]; intros currentDir Hbelow Hfix;
    rewrite getNodeModulesPath_walk_unfold_if.
  - simpl in Hfix. unfold HasParent in Hfix.
    destruct (String.eqb_spec currentDir (path_dirname currentDir)); tauto.
  - destruct (Hbelow 0 (Nat.lt_0_succ n)) as [Hp0 He0]. simpl in Hp0, He0.
    apply String.eqb_neq in Hp0. rewrite Hp0.
    unfold hasNodeModules in He0. rewrite He0.
    apply IH; auto using NoSuccessBelow_step.
Qed.

(** The walk always ends: at a level with node_modules, or where the
    parent step no longer changes the path. *)
Lemma walk_ends (currentDir : string) :
  exists n, NoSuccessBelow fs currentDir n
            /\ ((HasParent (ancestor n currentDir)
                 /\ hasNodeModules fs (ancestor n currentDir) = true)
                \/ ~ HasParent (ancestor n currentDir)).
Proof.
  remember (walkMeasure currentDir) as m eqn:Hm. revert currentDir Hm.
  induction m as [m IH] using (well_founded_induction lt_wf). intros currentDir Hm.
  destruct (String.eqb currentDir (path_dirname currentDir)) eqn:Hfix.
  - exists 0. split; [intros k Hk; lia |]. right. simpl.
    apply String.eqb_eq in Hfix. unfold HasParent. tauto.
  - pose proof Hfix as Hne. apply String.eqb_neq in Hne.
    destruct (hasNodeModules fs currentDir) eqn:Hex.
    + exists 0. split; [intros k Hk; lia |]. left. simpl. split; assumption.
    + destruct (IH (walkMeasure (path_dirname currentDir))
                  ltac:(subst m; apply walkMeasure_descends; exact Hfix)
                  (path_dirname currentDir) eq_refl) as (n & Hbelow & Hend).
      exists (S n). split; [| exact Hend].
      intros k Hk. destruct k as [| k]; simpl; [split; assumption |].
      apply Hbelow. lia.
Qed.


End Locator.



(** ** getFolderPath: the resolution ladder *)

Lemma isAsciiLetter_iff (c : ascii) : JS.isAsciiLetter c = true <-> AsciiLetter c.
Proof.
  unfold JS.isAsciiLetter, AsciiLetter.
  rewrite orb_true_iff, !andb_true_iff, !Nat.leb_le. tauto.
Qed.

Lemma matchesDriveLetter_iff (s : string) :
  matchesDriveLetter s = true <-> DriveLetterPath s.
Proof.
  unfold DriveLetterPath. split.
  - destruct s as [| c [| d rest]]; simpl; try discriminate.
    intros H. apply andb_prop in H as [Hc Hd].
    apply Ascii.eqb_eq in Hd as ->. exists c, rest.
    split; [reflexivity | now apply isAsciiLetter_iff].
  - intros (c & rest & -> & Hc). simpl.
    apply isAsciiLetter_iff in Hc. now rewrite Hc.
Qed.

Lemma startsWith_tilde_iff (s : string) :
  JS.startsWith s "~" = true <-> HomeRelative s.
Proof.
  unfold HomeRelative. rewrite startsWith_iff. reflexivity.
Qed.

Lemma isNodePackage_iff (insertedPath currentLine : string) :
  isNodePackage insertedPath currentLine = true
  <-> PackageReference currentLine insertedPath.
Proof.
  unfold isNodePackage, PackageReference, Contains.
  rewrite <- !includes_iff.
  destruct (JS.includes currentLine "require" || JS.includes currentLine "import") eqn:Hline;
    simpl.
  - apply orb_true_iff in Hline.
    destruct insertedPath as [| c rest]; simpl.
    + split; [discriminate |]. intros (_ & c & rest & H & _). discriminate.
    + destruct (JS.isAsciiLetter c) eqn:Hc; simpl.
      * split; [| reflexivity]. intros _. split; [exact Hline |].
        exists c, rest. split; [reflexivity | now apply isAsciiLetter_iff].
      * split; [discriminate |]. intros (_ & c' & rest' & H & Hc').
        injection H as -> ->. apply isAsciiLetter_iff in Hc'. congruence.
  - apply orb_false_iff in Hline as [H1 H2].
    split; [discriminate |]. intros ([H | H] & _); congruence.
Qed.

Lemma iff_false_of_not {b : bool} {Q : Prop} : (b = true <-> Q) -> ~ Q -> b = false.
Proof. destruct b; [intros H Hn; exfalso; apply Hn, H; reflexivity | reflexivity]. Qed.

Section Resolver.

Context {P : PathLib}.
Variable cfg : Configuration.
Variable fs : FileSystem.

(** Past the drive-letter and the home rules, the path is relative to
    the base directory, through node_modules for a package reference. *)
Lemma getFolderPath_relative (fileName currentLine : string) (currentPosition : nat) :
  let insertedPath :=
    insertedPath (applyMapping cfg (getUserPath currentLine currentPosition)) in
  let base := baseDirectory cfg fileName currentLine currentPosition in
  ~ DriveLetterPath insertedPath -> ~ HomeRelative insertedPath ->
  getFolderPath cfg fs fileName currentLine currentPosition
  = if isNodePackage insertedPath currentLine
    then path_join (getNodeModulesPath cfg fs base) insertedPath
    else path_join base insertedPath.
Proof.
  intros ins base Hnd Hnh. unfold getFolderPath. fold ins.
  rewrite (iff_false_of_not (matchesDriveLetter_iff ins) Hnd).
  rewrite (iff_false_of_not (startsWith_tilde_iff ins) Hnh).
  reflexivity.
Qed.

(** C2: after extraction and mapping, [getFolderPath] applies the first
    rule that matches, in this order: (1) a drive-letter path is
    resolved as an absolute path, whatever the current directory; (2) a
    path that starts with a tilde is the home directory joined with
    what follows the tilde; (3) when the line contains require or import
    and the path starts with an ASCII letter, the result is the nearest
    node_modules directory located from the current directory, joined
    with the path; (4) otherwise it is the current directory joined with
    the path. *)
Theorem getFolderPath_ladder (fileName currentLine : string) (currentPosition : nat) :
  let insertedPath :=
    insertedPath (applyMapping cfg (getUserPath currentLine currentPosition)) in
  let currentDir := baseDirectory cfg fileName currentLine currentPosition in
  (DriveLetterPath insertedPath ->
   getFolderPath cfg fs fileName currentLine currentPosition
   = path_resolve insertedPath)
  /\ (~ DriveLetterPath insertedPath ->
      forall rest, insertedPath = String "~" rest ->
      getFolderPath cfg fs fileName currentLine currentPosition
      = path_join (homeDirectory cfg) rest)
  /\ (~ DriveLetterPath insertedPath -> ~ HomeRelative insertedPath ->
      PackageReference currentLine insertedPath ->
      getFolderPath cfg fs fileName currentLine currentPosition
      = path_join (getNodeModulesPath cfg fs currentDir) insertedPath)
  /\ (~ DriveLetterPath insertedPath -> ~ HomeRelative insertedPath ->
      ~ PackageReference currentLine insertedPath ->
      getFolderPath cfg fs fileName currentLine currentPosition
      = path_join currentDir insertedPath).
Proof.
  intros ins dir. unfold getFolderPath. fold ins.
  change (if JS.truthy (currentDir (applyMapping cfg (getUserPath currentLine currentPosition)))
          then currentDir (applyMapping cfg (getUserPath currentLine currentPosition))
          else getCurrentDirectory cfg fileName ins) with dir.
  split; [| split; [| split]].
  - intros Hd. apply matchesDriveLetter_iff in Hd. now rewrite Hd.
  - intros Hnd rest Hrest.
    rewrite (iff_false_of_not (matchesDriveLetter_iff ins) Hnd).
    assert (Ht : JS.startsWith ins "~" = true).
    { apply startsWith_tilde_iff. now exists rest. }
    rewrite Ht, Hrest. reflexivity.
  - intros Hnd Hnh Hpkg.
    rewrite (iff_false_of_not (matchesDriveLetter_iff ins) Hnd).
    rewrite (iff_false_of_not (startsWith_tilde_iff ins) Hnh).
    apply isNodePackage_iff in Hpkg. now rewrite Hpkg.
  - intros Hnd Hnh Hnp.
    rewrite (iff_false_of_not (matchesDriveLetter_iff ins) Hnd).
    rewrite (iff_false_of_not (startsWith_tilde_iff ins) Hnh).
    now rewrite (iff_false_of_not (isNodePackage_iff ins currentLine) Hnp).
Qed.

(** C6 (amended): when [applyMapping] yields no target directory, the
    base directory used for resolution is the active file's parent
    directory, or [/] when the file name has no directory part, except
    when the mapped path starts with [/] and a workspace folder path is
    configured, in which case that workspace path is used; the chosen
    directory is resolved to absolute form, and the package rule and the
    plain join start from it. *)
Theorem getFolderPath_default_directory
    (fileName currentLine : string) (currentPosition : nat) :
  let mappingResult := applyMapping cfg (getUserPath currentLine currentPosition) in
  let insertedPath := insertedPath mappingResult in
  let base := baseDirectory cfg fileName currentLine currentPosition in
  currentDir mappingResult = EmptyString ->
  ((exists rest, insertedPath = String "/" rest) -> workspaceFolderPath cfg <> EmptyString ->
   base = path_resolve (workspaceFolderPath cfg))
  /\ (~ ((exists rest, insertedPath = String "/" rest) /\ workspaceFolderPath cfg <> EmptyString) ->
      path_parse_dir fileName <> EmptyString ->
      base = path_resolve (path_parse_dir fileName))
  /\ (~ ((exists rest, insertedPath = String "/" rest) /\ workspaceFolderPath cfg <> EmptyString) ->
      path_parse_dir fileName = EmptyString ->
      base = path_resolve "/")
  /\ (~ DriveLetterPath insertedPath -> ~ HomeRelative insertedPath ->
      getFolderPath cfg fs fileName currentLine currentPosition
      = if isNodePackage insertedPath currentLine
        then path_join (getNodeModulesPath cfg fs base) insertedPath
        else path_join base insertedPath).
Proof.
  intros m ins base Habsent.
  assert (Hbase : base = getCurrentDirectory cfg fileName ins).
  { unfold base, baseDirectory. fold m. rewrite Habsent. reflexivity. }
  assert (Hslash : JS.startsWith ins "/" = true <-> exists rest, ins = String "/" rest).
  { rewrite startsWith_iff. reflexivity. }
  assert (Htruthy : forall s, JS.truthy s = true <-> s <> EmptyString).
  { intros [| c s]; simpl; split; congruence. }
  split; [| split; [| split]].
  - intros Hs Hw. rewrite Hbase. unfold getCurrentDirectory.
    apply Hslash in Hs. apply Htruthy in Hw. now rewrite Hs, Hw.
  - intros Hnot Hdir. rewrite Hbase. unfold getCurrentDirectory.
    apply Htruthy in Hdir. rewrite Hdir.
    destruct (JS.startsWith ins "/" && JS.truthy (workspaceFolderPath cfg)) eqn:E;
      [| reflexivity].
    apply andb_prop in E as [E1 E2]. exfalso. apply Hnot.
    split; [now apply Hslash | now apply Htruthy].
  - intros Hnot Hdir. rewrite Hbase. unfold getCurrentDirectory.
    rewrite Hdir. cbn [JS.truthy].
    destruct (JS.startsWith ins "/" && JS.truthy (workspaceFolderPath cfg)) eqn:E;
      [| reflexivity].
    apply andb_prop in E as [E1 E2]. exfalso. apply Hnot.
    split; [now apply Hslash | now apply Htruthy].
  - intros Hd Hh. apply getFolderPath_relative; assumption.
Qed.

End Resolver.

Lemma getFolderPath_ladder_witness :
  (DriveLetterPath "C:/x"
   /\ getFolderPath (P := posixWork) defaultConfiguration workspaceModulesFileSystem
        "/ws/pkg/src/a.ts" (quoted EmptyString "C:/x") 5 = "/work/C:/x")
  /\ (~ DriveLetterPath "~/docs/"
      /\ getFolderPath (P := posixWork) defaultConfiguration workspaceModulesFileSystem
           "/ws/pkg/src/a.ts" (quoted EmptyString "~/docs/") 8 = "/home/user/docs/")
  /\ (PackageReference (quoted "import " "lodash/") "lodash/"
      /\ getFolderPath (P := posixWork) defaultConfiguration workspaceModulesFileSystem
           "/ws/pkg/src/a.ts" (quoted "import " "lodash/") 15 = "/ws/node_modules/lodash/")
  /\ (~ PackageReference (quoted EmptyString "./lib/") "./lib/"
      /\ getFolderPath (P := posixWork) defaultConfiguration workspaceModulesFileSystem
           "/ws/pkg/src/a.ts" (quoted EmptyString "./lib/") 7 = "/ws/pkg/src/lib/").
Proof.
  assert (Hdrive : DriveLetterPath "C:/x").
  { exists "C"%char, "/x". split; [reflexivity | left; vm_compute; lia]. }
  assert (Hnd : forall s, matchesDriveLetter s = false -> ~ DriveLetterPath s).
  { intros s E H. apply matchesDriveLetter_iff in H. congruence. }
  assert (Hnh : forall s, JS.startsWith s "~" = false -> ~ HomeRelative s).
  { intros s E H. apply startsWith_tilde_iff in H. congruence. }
  assert (Hnp : forall l s, isNodePackage s l = false -> ~ PackageReference l s).
  { intros l s E H. apply isNodePackage_iff in H. congruence. }
  assert (Hpkg : PackageReference (quoted "import " "lodash/") "lodash/").
  { apply isNodePackage_iff. reflexivity. }
  split; [| split; [| split]].
  - split; [exact Hdrive |].
    exact (proj1 (getFolderPath_ladder (P := posixWork) defaultConfiguration
                    workspaceModulesFileSystem "/ws/pkg/src/a.ts" (quoted EmptyString "C:/x") 5)
             Hdrive).
  - split; [apply Hnd; reflexivity |].
    exact (proj1 (proj2 (getFolderPath_ladder (P := posixWork) defaultConfiguration
                           workspaceModulesFileSystem "/ws/pkg/src/a.ts"
                           (quoted EmptyString "~/docs/") 8))
             (Hnd "~/docs/" eq_refl) "/docs/" eq_refl).
  - split; [exact Hpkg |].
    refine (eq_trans
              (proj1 (proj2 (proj2 (getFolderPath_ladder (P := posixWork)
                                      defaultConfiguration workspaceModulesFileSystem
                                      "/ws/pkg/src/a.ts" (quoted "import " "lodash/") 15)))
                 (Hnd "lodash/" eq_refl) (Hnh "lodash/" eq_refl) Hpkg) _).
    vm_compute. reflexivity.
  - split; [apply Hnp; reflexivity |].
    exact (proj2 (proj2 (proj2 (getFolderPath_ladder (P := posixWork)
                                  defaultConfiguration workspaceModulesFileSystem
                                  "/ws/pkg/src/a.ts" (quoted EmptyString "./lib/") 7)))
             (Hnd "./lib/" eq_refl) (Hnh "./lib/" eq_refl)
             (Hnp (quoted EmptyString "./lib/") "./lib/" eq_refl)).
Defined.

(** C6, as stated, fails: for the untitled file [Untitled-1], whose name
    has no directory part, with no mapping and no workspace, the base
    directory is [/] and not the parent directory of the file, which
    resolves to the working directory [/work]. *)
Lemma getFolderPath_untitled_file :
  currentDir (applyMapping defaultConfiguration (getUserPath (quoted EmptyString "lib/") 5)) = EmptyString
  /\ path_resolve (PathLib := posixWork) (path_parse_dir (PathLib := posixWork) "Untitled-1")
     = "/work"
  /\ path_resolve (PathLib := posixWork) (path_dirname (PathLib := posixWork) "Untitled-1")
     = "/work"
  /\ baseDirectory (P := posixWork) defaultConfiguration "Untitled-1" (quoted EmptyString "lib/") 5
     = "/"
  /\ getFolderPath (P := posixWork) defaultConfiguration emptyFileSystem
       "Untitled-1" (quoted EmptyString "lib/") 5 = "/lib/".
Proof. repeat split. Qed.

Lemma getFolderPath_default_directory_witness :
  (baseDirectory (P := posixWork) folderConfiguration "/proj/a/b.ts" (quoted EmptyString "/src/") 6
   = "/ws/pkg"
   /\ getFolderPath (P := posixWork) folderConfiguration emptyFileSystem
        "/proj/a/b.ts" (quoted EmptyString "/src/") 6 = "/ws/pkg/src/")
  /\ baseDirectory (P := posixWork) defaultConfiguration "/proj/a/b.ts" (quoted EmptyString "./x") 4
     = "/proj/a"
  /\ baseDirectory (P := posixWork) defaultConfiguration "Untitled-1" (quoted EmptyString "./x") 4
     = "/".
Proof.
  assert (Hnd : forall s, matchesDriveLetter s = false -> ~ DriveLetterPath s).
  { intros s E H. apply matchesDriveLetter_iff in H. congruence. }
  assert (Hnh : forall s, JS.startsWith s "~" = false -> ~ HomeRelative s).
  { intros s E H. apply startsWith_tilde_iff in H. congruence. }
  assert (Hnoslash : ~ ((exists rest, "./x" = String "/" rest)
                        /\ workspaceFolderPath defaultConfiguration <> EmptyString)).
  { intros [_ H]. apply H. reflexivity. }
  split; [split | split].
  - refine (proj1 (getFolderPath_default_directory (P := posixWork) folderConfiguration
                     emptyFileSystem "/proj/a/b.ts" (quoted EmptyString "/src/") 6 eq_refl) _ _).
    + exists "src/". reflexivity.
    + discriminate.
  - exact (proj2 (proj2 (proj2 (getFolderPath_default_directory (P := posixWork)
                                  folderConfiguration emptyFileSystem "/proj/a/b.ts"
                                  (quoted EmptyString "/src/") 6 eq_refl)))
             (Hnd "/src/" eq_refl) (Hnh "/src/" eq_refl)).
  - refine (proj1 (proj2 (getFolderPath_default_directory (P := posixWork)
                            defaultConfiguration emptyFileSystem "/proj/a/b.ts"
                            (quoted EmptyString "./x") 4 eq_refl)) Hnoslash _).
    vm_compute. discriminate.
  - exact (proj1 (proj2 (proj2 (getFolderPath_default_directory (P := posixWork)
                                  defaultConfiguration emptyFileSystem "Untitled-1"
                                  (quoted EmptyString "./x") 4 eq_refl)))
             Hnoslash eq_refl).
Defined.

(** ** getInsertText: the candidate formatter *)

Section Formatter.

Context {P : PathLib} {R : RegExpLib}.

Lemma fileNameRegexOf_declines (rule : Transformation) (name : string) :
  DeclinesFileName rule name ->
  exists pattern, fileNameRegexOf rule = Normal (Some pattern)
                  /\ regexp_exec pattern name = None.
Proof.
  intros (pattern & Hwhen & Hne & Herr & Hexec). exists pattern.
  unfold fileNameRegexOf, newRegExp. rewrite Hwhen, Herr.
  destruct pattern; [congruence | auto].
Qed.

Lemma fileNameRegexOf_accepts (rule : Transformation) (name : string) :
  AcceptsFileName rule name ->
  fileNameRegexOf rule = Normal None
  \/ exists pattern, fileNameRegexOf rule = Normal (Some pattern)
                     /\ regexp_exec pattern name <> None.
Proof.
  unfold fileNameRegexOf, newRegExp.
  intros [Hwhen | [Hwhen | (pattern & Hwhen & Herr & Hexec)]]; rewrite Hwhen.
  - left. reflexivity.
  - left. reflexivity.
  - destruct pattern as [| c pattern]; [left; reflexivity |].
    right. exists (String c pattern). simpl. rewrite Herr. auto.
Qed.

Lemma fileNameRegexOf_fails (rule : Transformation) (err : string) :
  FileNamePatternFails rule err -> fileNameRegexOf rule = Thrown err.
Proof.
  intros (pattern & Hwhen & Hne & Herr).
  unfold fileNameRegexOf, newRegExp. rewrite Hwhen, Herr.
  destruct pattern; [congruence | reflexivity].
Qed.

Lemma applyTransformation_skip (file : FileInfo) (text : string) (rule : Transformation) :
  DeclinesFileName rule (getName file) -> applyTransformation file text rule = Normal text.
Proof.
  intros H. destruct (fileNameRegexOf_declines rule (getName file) H)
    as (pattern & Hregex & Hexec).
  unfold applyTransformation. now rewrite Hregex, Hexec.
Qed.

Lemma applyTransformation_accepted (file : FileInfo) (text : string)
    (rule : Transformation) (pattern : string) :
  AcceptsFileName rule (getName file) ->
  type_ rule = "replace" ->
  nth_error (parameters rule) 0 = Some pattern -> pattern <> EmptyString ->
  applyTransformation file text rule
  = match newRegExp pattern with
    | Thrown err => Thrown err
    | Normal regex => Normal (replaceRegExp text regex (replacementOf rule))
    end.
Proof.
  intros Hacc Htype Hpat Hne. unfold applyTransformation, replacementOf.
  assert (Hparam : String.eqb (type_ rule) "replace"
                   && truthyOpt (nth_error (parameters rule) 0) = true
                   /\ nth 0 (parameters rule) EmptyString = pattern).
  { rewrite Htype, Hpat. simpl. destruct pattern; [congruence |].
    destruct (parameters rule) as [| p0 ps]; [discriminate |].
    simpl in Hpat. injection Hpat as ->. auto. }
  destruct Hparam as [Hcond Hnth].
  destruct (fileNameRegexOf_accepts rule (getName file) Hacc)
    as [Hregex | (p & Hregex & Hexec)]; rewrite Hregex.
  - rewrite Hcond, Hnth. reflexivity.
  - destruct (regexp_exec p (getName file)); [| congruence].
    rewrite Hcond, Hnth. reflexivity.
Qed.

Lemma forEachTransformation_app (file : FileInfo) (rules rules' : list Transformation)
    (text : string) :
  forEachTransformation file (rules ++ rules') text
  = match forEachTransformation file rules text with
    | Thrown err => Thrown err
    | Normal text' => forEachTransformation file rules' text'
    end.
Proof.
  revert text. induction rules as [| rule rules IH]; intros text; simpl; [reflexivity |].
  destruct (applyTransformation file text rule); [apply IH | reflexivity].
Qed.

(** C8 (amended): [getInsertText] starts from the base name of the entry
    when [withExtension] is set or the entry is a directory, and from the
    base name without its extension otherwise; then the transformation
    rules are applied in their order, each on the output of the rules
    before it, as long as their patterns compile: a rule that declares a
    file-name pattern which the name of the entry does not match is
    skipped, and a replace rule substitutes the first match of its pattern
    only, the text around that match being kept.  A file-name pattern
    that does not compile, or the pattern of a replace rule that is
    reached, makes the rule throw the error of the compilation, and
    [getInsertText] throws it in place of a text.  The entry index.ts
    gives index without [withExtension] and index.ts with it. *)
Theorem getInsertText_format :
  (forall cfg file,
      (withExtension cfg = true \/ isDirectory file = true ->
       baseInsertText cfg file = path_basename (getName file))
      /\ (withExtension cfg = false -> isDirectory file = false ->
          baseInsertText cfg file
          = path_basename_ext (getName file) (path_extname (getName file))))
  /\ (forall cfg file,
         transformations cfg = [] ->
         getInsertText cfg file = Normal (baseInsertText cfg file))
  /\ (forall cfg file rules rule,
         transformations cfg = (rules ++ [rule])%list ->
         getInsertText cfg file
         = match getInsertText (withTransformations cfg rules) file with
           | Thrown err => Thrown err
           | Normal text => applyTransformation file text rule
           end)
  /\ (forall file text rule,
         DeclinesFileName rule (getName file) ->
         applyTransformation file text rule = Normal text)
  /\ (forall file text rule pattern,
         AcceptsFileName rule (getName file) ->
         type_ rule = "replace" ->
         nth_error (parameters rule) 0 = Some pattern -> pattern <> EmptyString ->
         (regexp_error pattern = None ->
          (forall i n,
              regexp_exec pattern text = Some (i, n) ->
              applyTransformation file text rule
              = Normal (JS.take i text
                        ++ regexp_substitution pattern text (replacementOf rule)
                        ++ JS.drop (i + n) text))
          /\ (regexp_exec pattern text = None ->
              applyTransformation file text rule = Normal text))
         /\ (forall err, regexp_error pattern = Some err ->
                         applyTransformation file text rule = Thrown err))
  /\ (forall file text rule err,
         FileNamePatternFails rule err ->
         applyTransformation file text rule = Thrown err).
Proof.
  split; [| split; [| split; [| split; [| split]]]].
  - intros cfg file. unfold baseInsertText. split.
    + intros [H | H]; rewrite H; [reflexivity | now rewrite orb_true_r].
    + intros H1 H2. now rewrite H1, H2.
  - intros cfg file H. unfold getInsertText. now rewrite H.
  - intros cfg file rules rule H. unfold getInsertText.
    rewrite H, forEachTransformation_app. cbn [withTransformations transformations].
    change (baseInsertText (withTransformations cfg rules) file)
      with (baseInsertText cfg file).
    destruct (forEachTransformation file rules (baseInsertText cfg file));
      [simpl | reflexivity].
    destruct (applyTransformation file value rule); reflexivity.
  - exact applyTransformation_skip.
  - intros file text rule pattern Hacc Htype Hpat Hne.
    rewrite (applyTransformation_accepted file text rule pattern Hacc Htype Hpat Hne).
    unfold newRegExp, replaceRegExp. split.
    + intros Herr. rewrite Herr. split.
      * intros i n H. now rewrite H.
      * intros H. now rewrite H.
    + intros err Herr. now rewrite Herr.
  - intros file text rule err H. unfold applyTransformation.
    now rewrite (fileNameRegexOf_fails rule err H).
Qed.

End Formatter.

(** With a pattern without metacharacter, the match that is replaced is
    the first occurrence of the pattern. *)
Lemma literalRegExp_first_match (pattern text : string) (i n : nat) :
  regexp_exec (RegExpLib := literalRegExp) pattern text = Some (i, n) ->
  FirstOccurrence text pattern (JS.take i text) (JS.drop (i + n) text).
Proof.
  simpl. destruct (JS.indexOf text pattern) as [j |] eqn:Hj; [| discriminate].
  simpl. intros H. injection H as <- <-.
  exact (proj1 (indexOf_Some _ _ _ Hj)).
Qed.

(** C8, as stated, fails: a rule whose file-name pattern is the glob
    [*.ts], which is not a regular expression, is neither skipped nor
    applied on the entry index.ts; [getInsertText] throws the SyntaxError
    of the compilation and produces no insertion text. *)
Lemma getInsertText_glob_pattern_throws :
  regexp_exec (RegExpLib := literalRegExp) "*.ts" (getName indexFile) = None
  /\ getInsertText (P := posixWork) (R := literalRegExp)
       (withTransformations defaultConfiguration [globRule]) indexFile
     = Thrown "SyntaxError: Invalid regular expression: /*.ts/: Nothing to repeat"
  /\ getInsertText (P := posixWork) (R := literalRegExp)
       (withTransformations defaultConfiguration [globRule]) indexFile
     <> Normal "index".
Proof. split; [reflexivity |]. split; [reflexivity | discriminate]. Qed.

Lemma getInsertText_format_witness :
  (getInsertText (P := posixWork) (R := literalRegExp) defaultConfiguration indexFile
   = Normal "index"
   /\ getInsertText (P := posixWork) (R := literalRegExp) extensionConfiguration indexFile
      = Normal "index.ts")
  /\ getInsertText (P := posixWork) (R := literalRegExp)
       (withTransformations defaultConfiguration [renameRule; specRule; upperRule]) indexFile
     = applyTransformation (R := literalRegExp) indexFile "main" upperRule
  /\ applyTransformation (R := literalRegExp) indexFile "main" specRule = Normal "main"
  /\ applyTransformation (R := literalRegExp) indexFile "banana" upperRule
     = Normal "bAnana"
  /\ applyTransformation (R := literalRegExp) indexFile "index" globRule
     = Thrown "SyntaxError: Invalid regular expression: /*.ts/: Nothing to repeat".
Proof.
  pose proof (getInsertText_format (P := posixWork) (R := literalRegExp))
    as (Hbase & Hnone & Hsnoc & Hskip & Hreplace & Hfails).
  split; [split | split; [| split; [| split]]].
  - rewrite (Hnone defaultConfiguration indexFile eq_refl).
    exact (f_equal Normal (proj2 (Hbase defaultConfiguration indexFile) eq_refl eq_refl)).
  - rewrite (Hnone extensionConfiguration indexFile eq_refl).
    exact (f_equal Normal
             (proj1 (Hbase extensionConfiguration indexFile) (or_introl eq_refl))).
  - exact (Hsnoc (withTransformations defaultConfiguration [renameRule; specRule; upperRule])
             indexFile [renameRule; specRule] upperRule eq_refl).
  - apply Hskip. exists "spec". split; [reflexivity |]. split; [discriminate |].
    split; reflexivity.
  - refine (proj1 (proj1 (Hreplace indexFile "banana" upperRule "a" _ eq_refl eq_refl _)
                     eq_refl) 1 1 eq_refl).
    + left. reflexivity.
    + discriminate.
  - apply Hfails. exists "*.ts". split; [reflexivity |]. split; [discriminate | reflexivity].
Defined.

(** ** provideCompletionItems: the orchestrator *)

Section Formatting.

Context {P : PathLib} {R : RegExpLib} {G : GlobLib}.
Variable cfg : Configuration.

(** A rule whose patterns compile does not throw. *)
Lemma applyTransformation_compiles (file : FileInfo) (text : string)
    (rule : Transformation) :
  RuleCompiles rule -> exists text', applyTransformation file text rule = Normal text'.
Proof.
  intros [Hwhen Hparam]. unfold applyTransformation.
  assert (Hregex : exists regex, fileNameRegexOf rule = Normal regex).
  { unfold fileNameRegexOf, newRegExp, FileNamePatternCompiles in *.
    destruct (when_fileName rule) as [[| c p] |]; simpl; eauto.
    rewrite (Hwhen (String c p) eq_refl) by discriminate. eauto. }
  destruct Hregex as [regex ->].
  destruct (match regex with
            | Some regex0 =>
                match regexp_exec regex0 (getName file) with
                | Some _ => false
                | None => true
                end
            | None => false
            end); [eauto |].
  destruct (String.eqb (type_ rule) "replace" && truthyOpt (nth_error (parameters rule) 0))
    eqn:Hcond; [| eauto].
  apply andb_prop in Hcond as [_ Htruthy].
  destruct (parameters rule) as [| [| c p] ps]; try discriminate.
  simpl. unfold newRegExp. rewrite (Hparam (String c p) eq_refl) by discriminate. eauto.
Qed.

(** A rule throws only the error of one of its two patterns. *)
Lemma applyTransformation_thrown (file : FileInfo) (text : string)
    (rule : Transformation) (err : string) :
  applyTransformation file text rule = Thrown err ->
  exists pattern,
    (when_fileName rule = Some pattern \/ nth_error (parameters rule) 0 = Some pattern)
    /\ pattern <> EmptyString /\ regexp_error pattern = Some err.
Proof.
  unfold applyTransformation, fileNameRegexOf, newRegExp. intros H.
  assert (Hreplace :
    (if String.eqb (type_ rule) "replace" && truthyOpt (nth_error (parameters rule) 0)
     then
       match
         match regexp_error (nth 0 (parameters rule) EmptyString) with
         | Some err0 => Thrown err0
         | None => Normal (nth 0 (parameters rule) EmptyString)
         end
       with
       | Thrown err0 => Thrown err0
       | Normal regex =>
           Normal (replaceRegExp text regex
                     (match nth_error (parameters rule) 1 with
                      | Some r => r
                      | None => "undefined"
                      end))
       end
     else Normal text) = Thrown err ->
    exists pattern, nth_error (parameters rule) 0 = Some pattern
                    /\ pattern <> EmptyString /\ regexp_error pattern = Some err).
  { destruct (String.eqb (type_ rule) "replace"
              && truthyOpt (nth_error (parameters rule) 0)) eqn:Hc; [| discriminate].
    apply andb_prop in Hc as [_ Hc].
    destruct (parameters rule) as [| p0 ps]; [discriminate |]. simpl.
    destruct (regexp_error p0) as [e |] eqn:E; [| discriminate].
    intros H0. injection H0 as <-. exists p0.
    repeat split; auto. intros ->. discriminate. }
  destruct (when_fileName rule) as [fileName |] eqn:Hwhen.
  - destruct (JS.truthy fileName) eqn:Htruthy.
    + destruct (regexp_error fileName) as [e |] eqn:Herr.
      * injection H as <-. exists fileName.
        repeat split; auto. intros ->. discriminate.
      * destruct (regexp_exec fileName (getName file)); [| discriminate].
        destruct (Hreplace H) as (pat & Hp & He). exists pat. auto.
    + destruct (Hreplace H) as (pat & Hp & He). exists pat. auto.
  - destruct (Hreplace H) as (pat & Hp & He). exists pat. auto.
Qed.

Lemma forEachTransformation_compiles (file : FileInfo) (rules : list Transformation) :
  Forall RuleCompiles rules ->
  forall text, exists text', forEachTransformation file rules text = Normal text'.
Proof.
  induction 1 as [| rule rules Hrule _ IH]; intros text; simpl; [eauto |].
  destruct (applyTransformation_compiles file text rule Hrule) as [text' ->].
  apply IH.
Qed.

Lemma forEachTransformation_thrown (file : FileInfo) (rules : list Transformation)
    (err : string) :
  forall text,
    forEachTransformation file rules text = Thrown err ->
    exists rule pattern,
      In rule rules
      /\ (when_fileName rule = Some pattern \/ nth_error (parameters rule) 0 = Some pattern)
      /\ pattern <> EmptyString /\ regexp_error pattern = Some err.
Proof.
  induction rules as [| rule rules IH]; intros text H; simpl in H; [discriminate |].
  destruct (applyTransformation file text rule) as [text' | e] eqn:Happly.
  - destruct (IH text' H) as (r & pat & Hin & Hp).
    exists r, pat. split; [now right | exact Hp].
  - injection H as ->. destruct (applyTransformation_thrown file text rule err Happly)
      as (pat & Hp). exists rule, pat. split; [now left | exact Hp].
Qed.

Lemma mapCompletion_normal {A B : Type} (f : A -> Completion B) (l : list A) :
  (forall a, In a l -> exists b, f a = Normal b) ->
  exists bs, mapCompletion f l = Normal bs /\ Forall2 (fun a b => f a = Normal b) l bs.
Proof.
  induction l as [| a l IH]; intros H; simpl.
  - exists []. split; [reflexivity | constructor].
  - destruct (H a (or_introl eq_refl)) as [b Hb].
    destruct (IH (fun x Hx => H x (or_intror Hx))) as (bs & Hbs & Hall).
    rewrite Hb, Hbs. exists (b :: bs). split; [reflexivity |]. now constructor.
Qed.

Lemma mapCompletion_thrown {A B : Type} (f : A -> Completion B) (l : list A)
    (err : string) :
  mapCompletion f l = Thrown err -> exists a, In a l /\ f a = Thrown err.
Proof.
  induction l as [| a l IH]; simpl; [discriminate |].
  destruct (f a) as [b | e] eqn:Hfa.
  - destruct (mapCompletion f l) as [bs | e]; [discriminate |].
    intros H. destruct (IH H) as (x & Hin & Hx). exists x. auto.
  - intros H. injection H as ->. exists a. auto.
Qed.

Lemma candidateOf_shape (file : FileInfo) (insert : string) :
  CandidateShape cfg (candidateOf cfg file insert).
Proof.
  unfold CandidateShape, candidateOf.
  destruct (isDirectory file); simpl.
  - repeat split; try discriminate; auto.
    destruct (enableFolderTrailingSlash cfg); [reflexivity | congruence].
  - repeat split; try discriminate; auto; congruence.
Qed.

(** The handler never resolves with the empty list. *)
Lemma listCandidates_not_empty (currentFile : string) (items : list FileInfo) :
  listCandidates cfg currentFile items <> Resolved [].
Proof.
  unfold listCandidates.
  destruct (mapCompletion (toCompletionItem cfg)
              (List.filter (filter cfg currentFile) items)); discriminate.
Qed.

(** When the patterns compile, the handler resolves with the parent
    entry and one candidate per kept entry. *)
Lemma listCandidates_compiles (currentFile : string) (items : list FileInfo) :
  Forall RuleCompiles (transformations cfg) ->
  exists candidates,
    listCandidates cfg currentFile items = Resolved (newCompletionItem ".." :: candidates)
    /\ Forall2
         (fun file c =>
            exists insert, getInsertText cfg file = Normal insert
                           /\ c = candidateOf cfg file insert)
         (List.filter (filter cfg currentFile) items) candidates.
Proof.
  intros Hrules. unfold listCandidates.
  destruct (mapCompletion_normal (toCompletionItem cfg)
              (List.filter (filter cfg currentFile) items)) as (cs & Hcs & Hall).
  - intros file _. unfold toCompletionItem, getInsertText.
    destruct (forEachTransformation_compiles file (transformations cfg) Hrules
                (baseInsertText cfg file)) as [text ->]. eauto.
  - rewrite Hcs. exists cs. split; [reflexivity |].
    eapply Forall2_impl; [| exact Hall].
    intros file c Hc. unfold toCompletionItem in Hc.
    destruct (getInsertText cfg file) as [insert | e]; [| discriminate].
    injection Hc as <-. eauto.
Qed.

(** The handler rejects only with the error of a transformation pattern
    that does not compile. *)
Lemma listCandidates_rejected (currentFile : string) (items : list FileInfo)
    (err : string) :
  listCandidates cfg currentFile items = Rejected err ->
  exists rule pattern,
    In rule (transformations cfg)
    /\ (when_fileName rule = Some pattern \/ nth_error (parameters rule) 0 = Some pattern)
    /\ pattern <> EmptyString /\ regexp_error pattern = Some err.
Proof.
  unfold listCandidates. intros H.
  destruct (mapCompletion (toCompletionItem cfg)
              (List.filter (filter cfg currentFile) items)) as [cs | e] eqn:Hmap;
    [discriminate |].
  injection H as ->. apply mapCompletion_thrown in Hmap as (file & _ & Hfile).
  unfold toCompletionItem, getInsertText in Hfile.
  destruct (forEachTransformation file (transformations cfg) (baseInsertText cfg file))
    as [text | e] eqn:Hfor; [discriminate |].
  injection Hfile as ->. exact (forEachTransformation_thrown file _ err _ Hfor).
Qed.

End Formatting.

Section Orchestrator.

Context {P : PathLib} {R : RegExpLib} {G : GlobLib}.
Variable cfg : Configuration.
Variable fs : FileSystem.

Lemma provideCompletionItems_listing (document : TextDocument) (position : Position)
    (token : CancellationToken) :
  ReachesListing cfg fs document position ->
  provideCompletionItems cfg fs document position token
  = then_ (getFolderItems fs (folderPathOf cfg fs document position))
      (listCandidates cfg (fileName document)).
Proof.
  intros (Hgate & Hex & Hdir). unfold provideCompletionItems.
  fold (currentLineOf document position). rewrite Hgate. simpl.
  fold (folderPathOf cfg fs document position). rewrite Hex, Hdir. reflexivity.
Qed.

(** C1 (amended): if the resolved directory passes the
    existence-and-is-directory check but reading its entries then fails,
    [provideCompletionItems] does not recover: the promise it returns is
    rejected with the read error, which is thereby surfaced to the
    caller. *)
Theorem provideCompletionItems_read_error
    (document : TextDocument) (position : Position) (token : CancellationToken)
    (err : string) :
  ReachesListing cfg fs document position ->
  readdir fs (folderPathOf cfg fs document position) = inl err ->
  provideCompletionItems cfg fs document position token = Rejected err.
Proof.
  intros Hreach Hread. rewrite provideCompletionItems_listing by assumption.
  unfold getFolderItems. now rewrite Hread.
Qed.

(** C9 (amended): [provideCompletionItems] never consults the
    cancellation token: whatever the state of the token, the outcome is
    the same; in particular, once the directory has been read, and
    provided the patterns of the configured transformations compile, the
    candidate list is completed and delivered, the parent entry first. *)
Theorem provideCompletionItems_ignores_token
    (document : TextDocument) (position : Position) :
  (forall token token',
      provideCompletionItems cfg fs document position token
      = provideCompletionItems cfg fs document position token')
  /\ (forall token names,
         ReachesListing cfg fs document position ->
         readdir fs (folderPathOf cfg fs document position) = inr names ->
         Forall RuleCompiles (transformations cfg) ->
         exists candidates,
           provideCompletionItems cfg fs document position token
           = Resolved (newCompletionItem ".." :: candidates)).
Proof.
  split; [reflexivity |].
  intros token names Hreach Hread Hrules.
  rewrite provideCompletionItems_listing by assumption.
  unfold getFolderItems. rewrite Hread. simpl.
  destruct (listCandidates_compiles cfg (fileName document)
              (fold_left
                 (fun results item =>
                    match newFileInfo fs
                            (path_join (folderPathOf cfg fs document position) item) with
                    | Some info => (results ++ [info])%list
                    | None => results
                    end) names []) Hrules) as (candidates & Hres & _).
  exists candidates. exact Hres.
Qed.

End Orchestrator.

(** C1, as stated, fails: when the directory exists and cannot be read,
    the promise is rejected with the error instead of resolving with an
    empty list. *)
Lemma provideCompletionItems_denied_directory :
  ReachesListing (P := posixWork) defaultConfiguration deniedFileSystem
    importDocument importPosition
  /\ provideCompletionItems (P := posixWork) (R := literalRegExp) (G := literalGlob)
       defaultConfiguration deniedFileSystem importDocument importPosition
       liveToken
     = Rejected "EACCES"
  /\ provideCompletionItems (P := posixWork) (R := literalRegExp) (G := literalGlob)
       defaultConfiguration deniedFileSystem importDocument importPosition
       liveToken
     <> Resolved [].
Proof.
  split; [repeat split |]. split; [reflexivity | discriminate].
Qed.

Lemma provideCompletionItems_read_error_witness :
  provideCompletionItems (P := posixWork) (R := literalRegExp) (G := literalGlob)
    defaultConfiguration deniedFileSystem importDocument importPosition
    liveToken
  = Rejected "EACCES".
Proof.
  apply (provideCompletionItems_read_error (P := posixWork)); [repeat split | reflexivity].
Defined.

(** C9, as stated, fails: with the token cancelled while the listing is
    read, the complete candidate list is still delivered. *)
Lemma provideCompletionItems_cancelled_token :
  isCancellationRequested cancelledToken = true
  /\ provideCompletionItems (P := posixWork) (R := literalRegExp) (G := literalGlob)
       defaultConfiguration listingFileSystem importDocument importPosition cancelledToken
     = Resolved
         [ newCompletionItem "..";
           {| label := "src/"; insertText := Some "src"; sortText := Some "d";
              command_ := Some {| command := "default:type"; title := "triggerSuggest";
                                  arguments := ["/"] |};
              kind := Some File |};
           {| label := "index.ts"; insertText := Some "index"; sortText := Some "f";
              command_ := None; kind := Some File |} ].
Proof. split; reflexivity. Qed.

Lemma provideCompletionItems_ignores_token_witness :
  exists candidates,
    provideCompletionItems (P := posixWork) (R := literalRegExp) (G := literalGlob)
      defaultConfiguration listingFileSystem importDocument importPosition
      cancelledToken
    = Resolved (newCompletionItem ".." :: candidates).
Proof.
  apply (proj2 (provideCompletionItems_ignores_token (P := posixWork)
                  defaultConfiguration listingFileSystem importDocument importPosition)
           cancelledToken ["src"; "index.ts"]);
    [repeat split | reflexivity | apply Forall_nil].
Defined.

(** ** Placeholder substitution *)

Lemma getSubstitution_plain (matched before after replacement : string) :
  noDollar replacement = true ->
  JS.getSubstitution matched before after replacement = replacement.
Proof.
  induction replacement as [| c r IH]; [reflexivity |].
  simpl. intros H. apply andb_prop in H as [Hc Hr].
  destruct (Ascii.eqb c dollar); [discriminate |]. now rewrite IH.
Qed.

Lemma replace_plain (s key replacement : string) :
  noDollar replacement = true ->
  FirstOccurrenceReplaced s key replacement (JS.replace s key replacement).
Proof.
  intros Hplain. unfold JS.replace. destruct (JS.indexOf s key) as [i |] eqn:Hi.
  - left. destruct (indexOf_Some _ _ _ Hi) as [Hfirst _].
    exists (JS.take i s), (JS.drop (i + String.length key) s).
    split; [exact Hfirst | now rewrite getSubstitution_plain].
  - right. split; [apply indexOf_None; exact Hi | reflexivity].
Qed.

(** The substitution itself is conditional and single: each placeholder
    is looked up once, the first two only when their path is configured;
    when the configured paths hold no dollar sign, the first occurrence is
    replaced by the path as it is. *)
Lemma substitutePlaceholders_plain (cfg : Configuration) (template : string) :
  noDollar (workspaceRootPath cfg) = true ->
  noDollar (workspaceFolderPath cfg) = true ->
  noDollar (homeDirectory cfg) = true ->
  exists t1 t2,
    (workspaceRootPath cfg = EmptyString -> t1 = template)
    /\ (workspaceRootPath cfg <> EmptyString ->
        FirstOccurrenceReplaced template "${workspace}" (workspaceRootPath cfg) t1)
    /\ (workspaceFolderPath cfg = EmptyString -> t2 = t1)
    /\ (workspaceFolderPath cfg <> EmptyString ->
        FirstOccurrenceReplaced t1 "${folder}" (workspaceFolderPath cfg) t2)
    /\ FirstOccurrenceReplaced t2 "${home}" (homeDirectory cfg)
         (substitutePlaceholders cfg template).
Proof.
  intros Hw Hf Hh. unfold substitutePlaceholders.
  set (t1 := if JS.truthy (workspaceRootPath cfg)
             then JS.replace template "${workspace}" (workspaceRootPath cfg)
             else template).
  set (t2 := if JS.truthy (workspaceFolderPath cfg)
             then JS.replace t1 "${folder}" (workspaceFolderPath cfg)
             else t1).
  exists t1, t2. split; [| split; [| split; [| split]]].
  - intros H. unfold t1. now rewrite H.
  - intros H. unfold t1. destruct (workspaceRootPath cfg); [congruence |].
    apply replace_plain. exact Hw.
  - intros H. unfold t2. now rewrite H.
  - intros H. unfold t2. destruct (workspaceFolderPath cfg); [congruence |].
    apply replace_plain. exact Hf.
  - apply replace_plain. exact Hh.
Qed.

(** C10, at the failing input: with the home directory [/home/a$$b] the
    first [${home}] of the template is not replaced by that directory but
    by [/home/a$b], the two dollar signs being read as a replacement
    pattern; the later [${home}] and the unconfigured [${workspace}] stay
    as they are. *)
Theorem substitutePlaceholders_dollar_home :
  homeDirectory dollarConfiguration = "/home/a$$b"
  /\ substitutePlaceholders dollarConfiguration "${home}/x/${home}/${workspace}"
     = "/home/a$b/x/${home}/${workspace}"
  /\ substitutePlaceholders dollarConfiguration "${home}/x/${home}/${workspace}"
     <> homeDirectory dollarConfiguration ++ "/x/${home}/${workspace}"
  /\ currentDir (applyMapping dollarConfiguration "~h/y")
     = "/home/a$b/x/${home}/${workspace}".
Proof. repeat split. discriminate. Qed.

(** * Further properties of the provider *)

(** ** filter: the exclusion rules *)

Lemma filter_fold {G : GlobLib} (currentFile : string) (file : FileInfo)
    (rules : list (string * string)) (valid : bool) :
  fold_left
    (fun (valid : bool) (entry : string * string) =>
       let (item, rule) := entry in
       if minimatch currentFile rule && minimatch (getPath file) item
       then false else valid)
    rules valid = false
  <-> valid = false \/ exists entry, In entry rules /\ Excludes currentFile file entry.
Proof.
  revert valid. induction rules as [| [item rule] rules IH]; intros valid; simpl.
  - split; [auto | intros [H | (e & [] & _)]; exact H].
  - rewrite IH. unfold Excludes.
    destruct (minimatch currentFile rule && minimatch (getPath file) item) eqn:E.
    + split; [intros _ | auto]. right. exists (item, rule).
      apply andb_prop in E. simpl. tauto.
    + split.
      * intros [H | (e & Hin & He)]; [auto | right; exists e; tauto].
      * intros [H | (e & [<- | Hin] & He)]; [auto | | right; exists e; tauto].
        simpl in He. destruct He as [H1 H2]. rewrite H1, H2 in E. discriminate.
Qed.

(** X1: [filter] drops an entry exactly when some exclusion rule matches
    both the active file (its [when] pattern) and the path of the entry
    (its key); with no rule, nothing is dropped. *)
Theorem filter_excluded_iff {G : GlobLib} (cfg : Configuration) (currentFile : string)
    (file : FileInfo) :
  (filter cfg currentFile file = false
   <-> exists entry, In entry (excludedItems cfg) /\ Excludes currentFile file entry)
  /\ (excludedItems cfg = [] -> filter cfg currentFile file = true).
Proof.
  split.
  - unfold filter. rewrite filter_fold. split; [intros [H | H] | auto].
    + discriminate.
    + exact H.
  - intros H. unfold filter. now rewrite H.
Qed.

Lemma filter_excluded_iff_witness :
  filter (G := literalGlob) excludingConfiguration "/ws/pkg/src/a.ts" specFile = false
  /\ filter (G := literalGlob) excludingConfiguration "/ws/pkg/src/a.ts" indexFile = true
  /\ filter (G := literalGlob) defaultConfiguration "/ws/pkg/src/a.ts" specFile = true.
Proof.
  split; [| split].
  - apply (proj1 (filter_excluded_iff (G := literalGlob) excludingConfiguration
                    "/ws/pkg/src/a.ts" specFile)).
    exists ("/ws/pkg/src/b.spec.ts", "/ws/pkg/src/a.ts").
    split; [left; reflexivity | split; reflexivity].
  - destruct (filter (G := literalGlob) excludingConfiguration "/ws/pkg/src/a.ts" indexFile)
      eqn:E; [reflexivity |].
    apply (proj1 (filter_excluded_iff (G := literalGlob) excludingConfiguration
                    "/ws/pkg/src/a.ts" indexFile)) in E.
    destruct E as (e & [<- | []] & _ & H). discriminate H.
  - apply (proj2 (filter_excluded_iff (G := literalGlob) defaultConfiguration
                    "/ws/pkg/src/a.ts" specFile)).
    reflexivity.
Defined.

(** ** getFolderItems: the directory listing *)

Lemma getFolderItems_fold {P : PathLib} (fs : FileSystem) (folderPath : string)
    (items : list string) (acc : list FileInfo) :
  fold_left
    (fun results item =>
       match newFileInfo fs (path_join folderPath item) with
       | Some info => (results ++ [info])%list
       | None => results
       end)
    items acc
  = (acc ++ flat_map (fun item =>
                        match newFileInfo fs (path_join folderPath item) with
                        | Some info => [info]
                        | None => []
                        end) items)%list.
Proof.
  revert acc. induction items as [| item items IH]; intros acc; simpl.
  - now rewrite app_nil_r.
  - rewrite IH. destruct (newFileInfo fs (path_join folderPath item)); simpl.
    + now rewrite <- app_assoc.
    + reflexivity.
Qed.

Lemma listed_paths {P : PathLib} (fs : FileSystem) (folderPath : string)
    (items : list string) :
  map getPath
    (flat_map (fun item =>
                 match newFileInfo fs (path_join folderPath item) with
                 | Some info => [info]
                 | None => []
                 end) items)
  = List.filter (statSucceeds fs) (map (path_join folderPath) items).
Proof.
  induction items as [| item items IH]; simpl; [reflexivity |].
  unfold newFileInfo at 1, statSucceeds at 1.
  destruct (stat_isDirectory fs (path_join folderPath item)); simpl; now rewrite IH.
Qed.

Lemma getFolderItems_drops_unreadable_aux {P : PathLib} (fs : FileSystem)
    (folderPath : string) (names : list string) :
  readdir fs folderPath = inr names ->
  exists infos,
    getFolderItems fs folderPath = Resolved infos
    /\ List.length infos <= List.length names.
Proof.
  intros Hread. unfold getFolderItems. rewrite Hread, getFolderItems_fold. simpl.
  eexists. split; [reflexivity |].
  rewrite <- (length_map getPath), listed_paths.
  rewrite <- (length_map (path_join folderPath) names). apply filter_length_le.
Qed.

(** X2: when the directory can be read, [getFolderItems] resolves with
    one entry per name that can be inspected, in the order of the
    listing: a name whose inspection throws is dropped and the listing
    goes on.  Each entry carries the joined path, the base name of that
    path and the is-directory flag of the inspection. *)
Theorem getFolderItems_drops_unreadable {P : PathLib} (fs : FileSystem)
    (folderPath : string) (names : list string) :
  readdir fs folderPath = inr names ->
  exists infos,
    getFolderItems fs folderPath = Resolved infos
    /\ map getPath infos
       = List.filter (statSucceeds fs) (map (path_join folderPath) names)
    /\ List.length infos <= List.length names
    /\ forall info, In info infos ->
         stat_isDirectory fs (getPath info) = Some (isDirectory info)
         /\ getName info = path_basename (getPath info).
Proof.
  intros Hread. unfold getFolderItems. rewrite Hread, getFolderItems_fold. simpl.
  eexists. split; [reflexivity |]. split; [apply listed_paths |]. split.
  - rewrite <- (length_map getPath), listed_paths.
    rewrite <- (length_map (path_join folderPath) names). apply filter_length_le.
  - intros info Hin. apply in_flat_map in Hin as (item & _ & Hin).
    unfold newFileInfo in Hin.
    destruct (stat_isDirectory fs (path_join folderPath item)) as [d |] eqn:Hstat;
      [| destruct Hin].
    destruct Hin as [<- | []]. simpl. split; [exact Hstat | reflexivity].
Qed.

Lemma getFolderItems_drops_unreadable_witness :
  exists infos,
    getFolderItems (P := posixWork) brokenLinkFileSystem "/ws/pkg/src/" = Resolved infos
    /\ map getPath infos = ["/ws/pkg/src/src"; "/ws/pkg/src/index.ts"].
Proof.
  destruct (getFolderItems_drops_unreadable (P := posixWork) brokenLinkFileSystem
              "/ws/pkg/src/" ["src"; "dangling"; "index.ts"] eq_refl)
    as (infos & Hres & Hpaths & _).
  exists infos. split; [exact Hres | exact Hpaths].
Defined.

(** ** provideCompletionItems: the three outcomes *)

Section Outcomes.

Context {P : PathLib} {R : RegExpLib} {G : GlobLib}.
Variable cfg : Configuration.
Variable fs : FileSystem.

Lemma ReachesListing_dec (document : TextDocument) (position : Position) :
  ReachesListing cfg fs document position \/ ~ ReachesListing cfg fs document position.
Proof.
  unfold ReachesListing.
  destruct (shouldProvide cfg (currentLineOf document position) (character position));
    [| right; intros [H _]; discriminate].
  destruct (existsSync fs (folderPathOf cfg fs document position));
    [| right; intros (_ & H & _); discriminate].
  destruct (lstat_isDirectory fs (folderPathOf cfg fs document position));
    [left; auto | right; intros (_ & _ & H); discriminate].
Qed.

Lemma provideCompletionItems_gated (document : TextDocument) (position : Position)
    (token : CancellationToken) :
  ~ ReachesListing cfg fs document position ->
  provideCompletionItems cfg fs document position token = Resolved [].
Proof.
  intros Hnot. unfold provideCompletionItems.
  fold (currentLineOf document position).
  destruct (shouldProvide cfg (currentLineOf document position) (character position))
    eqn:Hgate; [| reflexivity].
  simpl. fold (folderPathOf cfg fs document position).
  destruct (existsSync fs (folderPathOf cfg fs document position)) eqn:Hex;
    [| reflexivity].
  destruct (lstat_isDirectory fs (folderPathOf cfg fs document position)) eqn:Hdir;
    [| reflexivity].
  exfalso. apply Hnot. repeat split; assumption.
Qed.

(** X3: [provideCompletionItems] resolves with the empty list exactly
    when the request is gated out or the resolved path is missing or not
    a directory; in that case the listing of the file system plays no
    part in the outcome. *)
Theorem provideCompletionItems_empty_iff (document : TextDocument) (position : Position)
    (token : CancellationToken) :
  provideCompletionItems cfg fs document position token = Resolved []
  <-> ~ ReachesListing cfg fs document position.
Proof.
  split; [| apply provideCompletionItems_gated].
  intros Hres Hreach.
  rewrite (provideCompletionItems_listing cfg fs document position token Hreach) in Hres.
  destruct (getFolderItems fs (folderPathOf cfg fs document position)) as [items | e];
    [| discriminate].
  exact (listCandidates_not_empty cfg (fileName document) items Hres).
Qed.

(** X4: the promise of [provideCompletionItems] is rejected in two cases
    only, both after the request has reached the listing: reading the
    directory fails, and the promise carries the error of the read; or
    the directory is read and a non-empty pattern of a configured
    transformation, its file-name pattern or its first parameter, does
    not compile, and the promise carries the error of the compilation.
    A failed read always rejects; and when every pattern of the
    transformations compiles, the promise is rejected exactly when the
    read fails.  Inspecting an entry never rejects, nor do exclusion
    rules that each carry their [when] glob, as the configuration type
    has them. *)
Theorem provideCompletionItems_rejected_iff (document : TextDocument)
    (position : Position) (token : CancellationToken) (err : string) :
  (provideCompletionItems cfg fs document position token = Rejected err ->
   ReachesListing cfg fs document position
   /\ (readdir fs (folderPathOf cfg fs document position) = inl err
       \/ ((exists names, readdir fs (folderPathOf cfg fs document position) = inr names)
           /\ exists rule pattern,
                In rule (transformations cfg)
                /\ (when_fileName rule = Some pattern
                    \/ nth_error (parameters rule) 0 = Some pattern)
                /\ pattern <> EmptyString
                /\ regexp_error pattern = Some err)))
  /\ (ReachesListing cfg fs document position
      /\ readdir fs (folderPathOf cfg fs document position) = inl err ->
      provideCompletionItems cfg fs document position token = Rejected err)
  /\ (Forall RuleCompiles (transformations cfg) ->
      (provideCompletionItems cfg fs document position token = Rejected err
       <-> ReachesListing cfg fs document position
           /\ readdir fs (folderPathOf cfg fs document position) = inl err)).
Proof.
  assert (Hcases :
    provideCompletionItems cfg fs document position token = Rejected err ->
    ReachesListing cfg fs document position
    /\ (readdir fs (folderPathOf cfg fs document position) = inl err
        \/ ((exists names, readdir fs (folderPathOf cfg fs document position) = inr names)
            /\ exists rule pattern,
                 In rule (transformations cfg)
                 /\ (when_fileName rule = Some pattern
                     \/ nth_error (parameters rule) 0 = Some pattern)
                 /\ pattern <> EmptyString
                 /\ regexp_error pattern = Some err))).
  { intros Hres.
    destruct (ReachesListing_dec document position) as [Hreach | Hnot].
    - split; [exact Hreach |].
      rewrite (provideCompletionItems_listing cfg fs document position token Hreach)
        in Hres.
      unfold getFolderItems in Hres.
      destruct (readdir fs (folderPathOf cfg fs document position)) as [e | names];
        simpl in Hres.
      + left. congruence.
      + right. split; [eauto |].
        exact (listCandidates_rejected cfg (fileName document) _ err Hres).
    - rewrite (provideCompletionItems_gated document position token Hnot) in Hres.
      discriminate. }
  assert (Hread :
    ReachesListing cfg fs document position
    /\ readdir fs (folderPathOf cfg fs document position) = inl err ->
    provideCompletionItems cfg fs document position token = Rejected err).
  { intros [Hreach Hread].
    rewrite (provideCompletionItems_listing cfg fs document position token Hreach).
    unfold getFolderItems. now rewrite Hread. }
  split; [exact Hcases |]. split; [exact Hread |].
  intros Hrules. split; [| exact Hread].
  intros Hres. destruct (Hcases Hres) as [Hreach [Hinl | [_ Hpattern]]];
    [split; assumption |].
  exfalso. destruct Hpattern as (rule & pattern & Hin & Hwhere & Hne & Herr).
  pose proof (proj1 (Forall_forall _ _) Hrules rule Hin) as [Hwhen Hparam].
  destruct Hwhere as [Hw | Hp].
  - rewrite (Hwhen pattern Hw Hne) in Herr. discriminate.
  - rewrite (Hparam pattern Hp Hne) in Herr. discriminate.
Qed.

(** X5: when the directory is read and every pattern of the configured
    transformations compiles, the result is the parent entry [..]
    followed by one candidate per listed entry that can be inspected and
    that the exclusion rules keep, in the order of the listing, each
    built from the entry and its insertion text: never more candidates
    than names in the directory, each one a File with an insertion text
    and the sort key d or f, and a retrigger command only on directories
    when [enableFolderTrailingSlash] is set. *)
Theorem provideCompletionItems_candidates (document : TextDocument)
    (position : Position) (token : CancellationToken) (names : list string) :
  ReachesListing cfg fs document position ->
  readdir fs (folderPathOf cfg fs document position) = inr names ->
  Forall RuleCompiles (transformations cfg) ->
  exists infos kept candidates,
    getFolderItems fs (folderPathOf cfg fs document position) = Resolved infos
    /\ kept = List.filter (filter cfg (fileName document)) infos
    /\ provideCompletionItems cfg fs document position token
       = Resolved (newCompletionItem ".." :: candidates)
    /\ Forall2
         (fun file candidate =>
            exists insert, getInsertText cfg file = Normal insert
                           /\ candidate = candidateOf cfg file insert)
         kept candidates
    /\ List.length candidates <= List.length names
    /\ Forall (CandidateShape cfg) candidates.
Proof.
  intros Hreach Hread Hrules.
  destruct (getFolderItems_drops_unreadable_aux fs _ names Hread)
    as (infos & Hitems & Hlen).
  destruct (listCandidates_compiles cfg (fileName document) infos Hrules)
    as (candidates & Hres & Hall).
  exists infos, (List.filter (filter cfg (fileName document)) infos), candidates.
  split; [exact Hitems |]. split; [reflexivity |]. split.
  - rewrite (provideCompletionItems_listing cfg fs document position token Hreach).
    now rewrite Hitems.
  - split; [exact Hall |]. split.
    + rewrite <- (Forall2_length Hall).
      etransitivity; [apply filter_length_le | exact Hlen].
    + clear - Hall. induction Hall as [| file c kept cs (insert & _ & ->) _ IH];
        constructor; [apply candidateOf_shape | exact IH].
Qed.

End Outcomes.

Lemma provideCompletionItems_empty_iff_witness :
  ~ ReachesListing (P := posixWork) defaultConfiguration deniedFileSystem
      plainDocument plainPosition
  /\ provideCompletionItems (P := posixWork) (R := literalRegExp) (G := literalGlob)
       defaultConfiguration deniedFileSystem plainDocument plainPosition liveToken
     = Resolved [].
Proof.
  assert (H : ~ ReachesListing (P := posixWork) defaultConfiguration deniedFileSystem
                  plainDocument plainPosition).
  { intros [Hgate _]. vm_compute in Hgate. discriminate. }
  split; [exact H |].
  exact (proj2 (provideCompletionItems_empty_iff (P := posixWork) (R := literalRegExp)
                  (G := literalGlob) defaultConfiguration deniedFileSystem
                  plainDocument plainPosition liveToken) H).
Defined.

(** With the glob [*.ts] as the file-name pattern of a transformation,
    the directory is read and the promise is rejected all the same, with
    the SyntaxError of the compilation. *)
Lemma provideCompletionItems_pattern_rejects :
  readdir listingFileSystem
    (folderPathOf (P := posixWork) (withTransformations defaultConfiguration [globRule])
       listingFileSystem importDocument importPosition)
  = inr ["src"; "index.ts"]
  /\ provideCompletionItems (P := posixWork) (R := literalRegExp) (G := literalGlob)
       (withTransformations defaultConfiguration [globRule]) listingFileSystem
       importDocument importPosition liveToken
     = Rejected "SyntaxError: Invalid regular expression: /*.ts/: Nothing to repeat".
Proof. split; reflexivity. Qed.

Lemma provideCompletionItems_rejected_iff_witness :
  (ReachesListing (P := posixWork) defaultConfiguration deniedFileSystem
     importDocument importPosition
   /\ readdir deniedFileSystem
        (folderPathOf (P := posixWork) defaultConfiguration deniedFileSystem
           importDocument importPosition) = inl "EACCES")
  /\ (exists rule pattern,
         In rule [globRule]
         /\ (when_fileName rule = Some pattern
             \/ nth_error (parameters rule) 0 = Some pattern)
         /\ pattern <> EmptyString
         /\ regexp_error (RegExpLib := literalRegExp) pattern
            = Some "SyntaxError: Invalid regular expression: /*.ts/: Nothing to repeat").
Proof.
  split.
  - apply (proj1 (proj2 (proj2
             (provideCompletionItems_rejected_iff (P := posixWork) (R := literalRegExp)
                (G := literalGlob) defaultConfiguration deniedFileSystem
                importDocument importPosition liveToken "EACCES")) (Forall_nil _))).
    reflexivity.
  - destruct (proj1
               (provideCompletionItems_rejected_iff (P := posixWork) (R := literalRegExp)
                  (G := literalGlob) (withTransformations defaultConfiguration [globRule])
                  listingFileSystem importDocument importPosition liveToken
                  "SyntaxError: Invalid regular expression: /*.ts/: Nothing to repeat")
               eq_refl) as [_ [Hread | [_ Hpattern]]].
    + discriminate Hread.
    + exact Hpattern.
Defined.

Lemma provideCompletionItems_candidates_witness :
  exists infos kept candidates,
    getFolderItems (P := posixWork) brokenLinkFileSystem
      (folderPathOf (P := posixWork) defaultConfiguration brokenLinkFileSystem
         importDocument importPosition) = Resolved infos
    /\ kept = List.filter (filter (G := literalGlob) defaultConfiguration
                             (fileName importDocument)) infos
    /\ provideCompletionItems (P := posixWork) (R := literalRegExp) (G := literalGlob)
         defaultConfiguration brokenLinkFileSystem importDocument importPosition liveToken
       = Resolved (newCompletionItem ".." :: candidates)
    /\ Forall2
         (fun file candidate =>
            exists insert,
              getInsertText (P := posixWork) (R := literalRegExp)
                defaultConfiguration file = Normal insert
              /\ candidate = candidateOf defaultConfiguration file insert)
         kept candidates
    /\ List.length candidates <= 3
    /\ Forall (CandidateShape defaultConfiguration) candidates.
Proof.
  apply (provideCompletionItems_candidates (P := posixWork) (R := literalRegExp)
           (G := literalGlob) defaultConfiguration brokenLinkFileSystem
           importDocument importPosition liveToken ["src"; "dangling"; "index.ts"]);
    [repeat split | reflexivity | apply Forall_nil].
Defined.

(** ** getUserPath and shouldProvide: bounds *)

Lemma take_split (a b : nat) (s : string) :
  a <= b -> JS.take b s = JS.take a s ++ JS.take (b - a) (JS.drop a s).
Proof.
  revert b s. induction a as [| a IH]; intros b s Hle.
  - rewrite Nat.sub_0_r. destruct s; reflexivity.
  - destruct b as [| b]; [lia |]. destruct s as [| c s]; simpl.
    + destruct (b - a); reflexivity.
    + rewrite (IH b s) by lia. reflexivity.
Qed.

Lemma take_length_le (n : nat) (s : string) : String.length (JS.take n s) <= n.
Proof.
  revert s. induction n as [| n IH]; intros [| c s]; simpl; try lia.
  specialize (IH s). lia.
Qed.

Lemma take_all (n : nat) (s : string) : String.length s <= n -> JS.take n s = s.
Proof.
  revert s. induction n as [| n IH]; intros [| c s]; simpl; intros H;
    try reflexivity; try lia.
  rewrite IH by lia. reflexivity.
Qed.

Lemma drop_length (n : nat) (s : string) :
  String.length (JS.drop n s) = String.length s - n.
Proof.
  revert s. induction n as [| n IH]; intros [| c s]; simpl; try reflexivity.
  apply IH.
Qed.

Lemma get_past_end (s : string) (i : nat) : String.length s <= i -> String.get i s = None.
Proof.
  revert i. induction s as [| c s IH]; intros i H; [destruct i; reflexivity |].
  destruct i as [| i]; simpl in *; [lia |]. apply IH. lia.
Qed.

Lemma lastIndex_bounds (p : nat -> bool) (n : nat) :
  (-1 <= lastIndex p n < Z.of_nat n)%Z.
Proof.
  induction n as [| n IH]; simpl; [lia |].
  destruct (p n); lia.
Qed.

Lemma getUserPath_start_bounds (currentLine : string) (currentPosition : nat) :
  (-1 <= getUserPath_start currentLine currentPosition < Z.of_nat currentPosition)%Z.
Proof.
  rewrite getUserPath_start_spec.
  pose proof (lastIndex_bounds (unescapedQuote currentLine) currentPosition).
  pose proof (lastIndex_bounds (unescapedSeparator currentLine) currentPosition).
  destruct (negb (lastIndex (unescapedQuote currentLine) currentPosition =? -1)%Z); lia.
Qed.

(** X6: the fragment that [getUserPath] returns is always the end of the
    text before the cursor: that text is some prefix followed by the
    fragment, so the fragment is never longer than the cursor column and
    never reaches past the cursor. *)
Theorem getUserPath_suffix (currentLine : string) (currentPosition : nat) :
  (exists before,
      JS.take currentPosition currentLine
      = before ++ getUserPath currentLine currentPosition)
  /\ String.length (getUserPath currentLine currentPosition) <= currentPosition.
Proof.
  pose proof (getUserPath_start_bounds currentLine currentPosition) as Hb.
  unfold getUserPath, JS.substring.
  set (a := Z.to_nat (getUserPath_start currentLine currentPosition + 1)).
  assert (Ha : a <= currentPosition) by (unfold a; lia).
  rewrite Nat.min_l, Nat.max_r by exact Ha. split.
  - exists (JS.take a currentLine). apply take_split. exact Ha.
  - etransitivity; [apply take_length_le | lia].
Qed.

Lemma charAt_of_nat (s : string) (i : nat) : JS.charAt s (Z.of_nat i) = JS.at_ s i.
Proof.
  unfold JS.charAt, JS.at_.
  replace (Z.of_nat i <? 0)%Z with false by (symmetry; apply Z.ltb_ge; lia).
  now rewrite Nat2Z.id.
Qed.

Lemma quoteNotEscaped_isQuote (currentLine : string) (k : QuoteKind) (i : nat) :
  quoteNotEscaped currentLine (quoteChar k) i = true ->
  isQuote (JS.at_ currentLine i) = true.
Proof.
  unfold quoteNotEscaped. rewrite charAt_of_nat. intros H.
  apply andb_prop in H as [H _]. unfold isQuote.
  destruct k; simpl in H; rewrite H.
  - reflexivity.
  - apply orb_true_iff. left. apply orb_true_r.
  - apply orb_true_r.
Qed.

Lemma countNotEscaped_zero (currentLine : string) (k : QuoteKind) (n : nat) :
  (forall i, i < n -> quoteNotEscaped currentLine (quoteChar k) i = false) ->
  countNotEscaped currentLine k n = 0.
Proof.
  induction n as [| n IH]; intros H; [reflexivity |].
  rewrite countNotEscaped_S, IH, H by auto. reflexivity.
Qed.

Lemma countNotEscaped_past (currentLine : string) (k : QuoteKind) (n m : nat) :
  n <= m ->
  (forall i, n <= i < m -> quoteNotEscaped currentLine (quoteChar k) i = false) ->
  countNotEscaped currentLine k m = countNotEscaped currentLine k n.
Proof.
  induction m as [| m IH]; intros Hle H.
  - replace n with 0 by lia. reflexivity.
  - destruct (Nat.eq_dec n (S m)) as [-> | Hne]; [reflexivity |].
    rewrite countNotEscaped_S, H, Nat.add_0_r by lia.
    apply IH; [lia |]. intros i Hi. apply H. lia.
Qed.

(** [shouldProvide] only looks at the parity of the three counts. *)
Lemma shouldProvide_parity_ext (cfg : Configuration) (currentLine : string) (n m : nat) :
  (forall k, Nat.odd (countNotEscaped currentLine k n)
             = Nat.odd (countNotEscaped currentLine k m)) ->
  shouldProvide cfg currentLine n = shouldProvide cfg currentLine m.
Proof.
  intros H. unfold shouldProvide. destruct (triggerOutsideStrings cfg); [reflexivity |].
  pose proof (shouldProvide_scan_parity currentLine Single) as Hs.
  pose proof (shouldProvide_scan_parity currentLine Double) as Hd.
  pose proof (shouldProvide_scan_parity currentLine Backtick) as Hb.
  simpl in Hs, Hd, Hb.
  rewrite !Hs, !Hd, !Hb, (H Single), (H Double), (H Backtick). reflexivity.
Qed.

(** X7: a cursor past the end of the line behaves as a cursor at the end
    of the line: [getUserPath] returns the same fragment and
    [shouldProvide] the same answer, the missing characters being neither
    quotes nor separators. *)
Theorem cursor_past_end (cfg : Configuration) (currentLine : string) (position : nat) :
  String.length currentLine <= position ->
  getUserPath currentLine position = getUserPath currentLine (String.length currentLine)
  /\ shouldProvide cfg currentLine position
     = shouldProvide cfg currentLine (String.length currentLine).
Proof.
  intros Hle. split.
  - assert (Hstart : getUserPath_start currentLine position
                     = getUserPath_start currentLine (String.length currentLine)).
    { rewrite !getUserPath_start_spec.
      rewrite (lastIndex_ext (unescapedQuote currentLine)
                 (String.length currentLine) position Hle).
      - rewrite (lastIndex_ext (unescapedSeparator currentLine)
                   (String.length currentLine) position Hle); [reflexivity |].
        intros j Hj. unfold unescapedSeparator, JS.at_.
        rewrite get_past_end by lia. apply andb_false_r.
      - intros j Hj. unfold unescapedQuote, JS.at_.
        rewrite get_past_end by lia. apply andb_false_r. }
    pose proof (getUserPath_start_bounds currentLine (String.length currentLine)) as Hb.
    unfold getUserPath, JS.substring. rewrite Hstart.
    set (a := Z.to_nat (getUserPath_start currentLine (String.length currentLine) + 1)).
    assert (Ha : a <= String.length currentLine) by (unfold a; lia).
    rewrite !Nat.min_l, !Nat.max_r by lia.
    rewrite !take_all; [reflexivity | |]; rewrite drop_length; lia.
  - apply shouldProvide_parity_ext. intros k. f_equal.
    apply countNotEscaped_past; [exact Hle |].
    intros i Hi. unfold quoteNotEscaped. rewrite charAt_of_nat. unfold JS.at_.
    rewrite get_past_end by lia. reflexivity.
Qed.

Lemma cursor_past_end_witness :
  getUserPath importLine 40 = getUserPath importLine (String.length importLine)
  /\ shouldProvide defaultConfiguration importLine 40
     = shouldProvide defaultConfiguration importLine (String.length importLine).
Proof.
  apply (cursor_past_end defaultConfiguration importLine 40). vm_compute. lia.
Defined.

(** X8: when no quote character (single, double, backtick) stands before
    the cursor, [shouldProvide] returns the [triggerOutsideStrings] flag:
    outside of any string, completion is offered only on request.  In
    particular this is the answer at column 0 and on an empty line. *)
Theorem shouldProvide_without_quotes (cfg : Configuration) (currentLine : string)
    (position : nat) :
  (forall i, i < position -> isQuote (JS.at_ currentLine i) = false) ->
  shouldProvide cfg currentLine position = triggerOutsideStrings cfg.
Proof.
  intros Hno.
  assert (Hzero : forall k, countNotEscaped currentLine k position = 0).
  { intros k. apply countNotEscaped_zero. intros i Hi.
    destruct (quoteNotEscaped currentLine (quoteChar k) i) eqn:E; [| reflexivity].
    apply quoteNotEscaped_isQuote in E. rewrite Hno in E by exact Hi. discriminate. }
  unfold shouldProvide. destruct (triggerOutsideStrings cfg); [reflexivity |].
  pose proof (shouldProvide_scan_parity currentLine Single position) as Hs.
  pose proof (shouldProvide_scan_parity currentLine Double position) as Hd.
  pose proof (shouldProvide_scan_parity currentLine Backtick position) as Hb.
  simpl in Hs, Hd, Hb. rewrite Hs, Hd, Hb, !Hzero. reflexivity.
Qed.

Lemma shouldProvide_without_quotes_witness :
  shouldProvide defaultConfiguration "foo bar" 7 = false
  /\ shouldProvide extensionConfiguration importLine 0 = false.
Proof.
  split.
  - apply (shouldProvide_without_quotes defaultConfiguration "foo bar" 7).
    intros i Hi.
    do 7 (destruct i as [| i]; [reflexivity |]). lia.
  - apply (shouldProvide_without_quotes extensionConfiguration importLine 0).
    intros i Hi. lia.
Defined.

(** X9: the three quote counters of [shouldProvide] never leave 0 and 1:
    the update adds 1 to a counter at 0 and subtracts 1 otherwise, so a
    counter is never negative and records only whether its quote is open. *)
Theorem shouldProvide_counters_binary (currentLine : string) (position : nat)
    (k : QuoteKind) :
  counter k (shouldProvide_scan currentLine position) = 0%Z
  \/ counter k (shouldProvide_scan currentLine position) = 1%Z.
Proof.
  rewrite shouldProvide_scan_parity.
  destruct (Nat.odd (countNotEscaped currentLine k position)); auto.
Qed.

(** ** applyMapping: what a mapping can do to the fragment *)

Lemma replace_absent (s key replacement : string) :
  ~ Contains s key -> JS.replace s key replacement = s.
Proof.
  intros Hno. unfold JS.replace.
  destruct (JS.indexOf s key) as [i |] eqn:Hi; [| reflexivity].
  exfalso. apply Hno. destruct (indexOf_Some _ _ _ Hi) as [[Hocc _] _].
  eexists. eexists. exact Hocc.
Qed.

Lemma replace_empty_length (s key : string) :
  String.length (JS.replace s key EmptyString) <= String.length s.
Proof.
  unfold JS.replace. destruct (JS.indexOf s key) as [i |] eqn:Hi; [| lia].
  destruct (indexOf_Some _ _ _ Hi) as [[Hocc _] Hlen]. unfold OccursAt in Hocc.
  cbn [JS.getSubstitution String.append].
  rewrite Hocc at 3. rewrite !append_length. lia.
Qed.

Lemma applyMapping_some_cases (mappings : list (string * string)) (st : MappingResult) :
  applyMapping_some mappings st = st
  \/ exists key path,
       In (key, path) mappings
       /\ mappingApplies (insertedPath st) key = true
       /\ applyMapping_some mappings st
          = {| currentDir := path;
               insertedPath := JS.replace (insertedPath st) key EmptyString |}.
Proof.
  induction mappings as [| [key path] rest IH]; simpl; [auto |].
  destruct (mappingApplies (insertedPath st) key) eqn:E.
  - right. exists key, path. auto.
  - destruct IH as [H | (k & p & Hin & Hk & H)]; [auto |].
    right. exists k, p. auto.
Qed.

(** X10: whatever the mappings, [applyMapping] never lengthens the
    fragment; it returns the fragment unchanged when no mapping key occurs
    in it (a [$root] mapping included); and the directory it returns is
    either absent or the substituted target of a configured mapping whose
    key matches the fragment. *)
Theorem applyMapping_outcome (cfg : Configuration) (fragment : string) :
  String.length (insertedPath (applyMapping cfg fragment)) <= String.length fragment
  /\ ((forall key target, In (key, target) (pathMappings cfg) -> ~ Contains fragment key) ->
      insertedPath (applyMapping cfg fragment) = fragment)
  /\ (currentDir (applyMapping cfg fragment) = EmptyString
      \/ exists key target,
           In (key, target) (pathMappings cfg)
           /\ KeyMatches fragment key
           /\ currentDir (applyMapping cfg fragment) = substitutePlaceholders cfg target).
Proof.
  unfold applyMapping.
  destruct (applyMapping_some_cases
              (map (fun m => (fst m, substitutePlaceholders cfg (snd m)))
                 (JS.ownEntries (pathMappings cfg)))
              {| currentDir := EmptyString; insertedPath := fragment |})
    as [-> | (key & path & Hin & Hk & ->)]; cbn [currentDir insertedPath] in *.
  - split; [lia |]. split; auto.
  - apply in_map_iff in Hin as ([k target] & Heq & Hin). simpl in Heq.
    injection Heq as -> <-. apply (proj1 (ownEntries_In _ _)) in Hin.
    split; [apply replace_empty_length |]. split.
    + intros Hno. apply replace_absent. exact (Hno key target Hin).
    + right. exists key, target. split; [exact Hin |].
      split; [now apply mappingApplies_iff | reflexivity].
Qed.

Lemma applyMapping_outcome_witness :
  insertedPath (applyMapping appConfiguration "./x") = "./x"
  /\ currentDir (applyMapping appConfiguration "./x") = "/ws/pkg".
Proof.
  split.
  - apply (proj1 (proj2 (applyMapping_outcome appConfiguration "./x"))).
    intros key target Hin H. apply includes_iff in H.
    destruct Hin as [Heq | [Heq | [Heq | []]]]; injection Heq as <- _;
      vm_compute in H; discriminate.
  - reflexivity.
Defined.

(** X11: a mapping target that holds none of the three placeholders is
    used as it is, whatever the workspace and home directories are. *)
Theorem substitutePlaceholders_without_placeholder (cfg : Configuration)
    (template : string) :
  ~ Contains template "${workspace}" ->
  ~ Contains template "${folder}" ->
  ~ Contains template "${home}" ->
  substitutePlaceholders cfg template = template.
Proof.
  intros Hw Hf Hh. unfold substitutePlaceholders.
  rewrite (replace_absent template "${workspace}" (workspaceRootPath cfg) Hw).
  replace (if JS.truthy (workspaceRootPath cfg) then template else template)
    with template by (destruct (JS.truthy (workspaceRootPath cfg)); reflexivity).
  rewrite (replace_absent template "${folder}" (workspaceFolderPath cfg) Hf).
  replace (if JS.truthy (workspaceFolderPath cfg) then template else template)
    with template by (destruct (JS.truthy (workspaceFolderPath cfg)); reflexivity).
  apply replace_absent. exact Hh.
Qed.

Lemma substitutePlaceholders_without_placeholder_witness :
  substitutePlaceholders dollarConfiguration "/opt/lib" = "/opt/lib".
Proof.
  apply substitutePlaceholders_without_placeholder;
    intros H; apply includes_iff in H; vm_compute in H; discriminate.
Defined.

(** ** getNodeModulesPath and getFolderPath: what the result depends on *)

(** X12: [getNodeModulesPath] returns either a node_modules path that
    exists, in an ancestor of the starting directory, or the fallback in
    the workspace folder, which is the only result that may not exist. *)
Theorem getNodeModulesPath_exists_or_fallback {P : PathLib} (cfg : Configuration)
    (fs : FileSystem) (currentDir : string) :
  (exists n,
      getNodeModulesPath cfg fs currentDir
      = path_join (ancestor n currentDir) "node_modules"
      /\ existsSync fs (getNodeModulesPath cfg fs currentDir) = true)
  \/ getNodeModulesPath cfg fs currentDir
     = path_join (workspaceFolderPath cfg) "node_modules".
Proof.
  destruct (walk_ends fs currentDir) as (n & Hbelow & [[Hpar Hex] | Hfix]).
  - left. exists n. unfold getNodeModulesPath.
    rewrite (getNodeModulesPath_walk_found fs (workspaceFolderPath cfg) n currentDir
               Hbelow Hpar Hex).
    split; [reflexivity | exact Hex].
  - right. unfold getNodeModulesPath.
    exact (getNodeModulesPath_walk_fallback fs (workspaceFolderPath cfg) n currentDir
             Hbelow Hfix).
Qed.

Section Dependence.

Context {P : PathLib}.
Variable cfg : Configuration.

(** X13: on a line that contains neither require nor import,
    [getFolderPath] never looks at the file system: the resolved path is
    the same in every file system, whatever the shape of the fragment. *)
Theorem getFolderPath_without_import (fileName currentLine : string)
    (currentPosition : nat) :
  ~ Contains currentLine "require" -> ~ Contains currentLine "import" ->
  forall fs fs',
    getFolderPath cfg fs fileName currentLine currentPosition
    = getFolderPath cfg fs' fileName currentLine currentPosition.
Proof.
  intros Hr Hi fs fs'. unfold getFolderPath.
  assert (Hpkg : forall ins, isNodePackage ins currentLine = false).
  { intros ins. apply (iff_false_of_not (isNodePackage_iff ins currentLine)).
    intros [[H | H] _]; [exact (Hr H) | exact (Hi H)]. }
  rewrite Hpkg. reflexivity.
Qed.

(** X14: the active file only matters for a relative path without
    mapping: when a mapping supplies a directory, or the mapped path has a
    drive letter or starts with a tilde, [getFolderPath] gives the same
    result for every file name. *)
Theorem getFolderPath_without_file (fs : FileSystem) (currentLine : string)
    (currentPosition : nat) :
  let mappingResult := applyMapping cfg (getUserPath currentLine currentPosition) in
  currentDir mappingResult <> EmptyString
  \/ DriveLetterPath (insertedPath mappingResult)
  \/ HomeRelative (insertedPath mappingResult) ->
  forall fileName fileName',
    getFolderPath cfg fs fileName currentLine currentPosition
    = getFolderPath cfg fs fileName' currentLine currentPosition.
Proof.
  intros m H fileName fileName'. unfold getFolderPath. fold m.
  destruct H as [H | [H | H]].
  - destruct (currentDir m); [congruence | reflexivity].
  - apply matchesDriveLetter_iff in H. now rewrite H.
  - destruct (matchesDriveLetter (insertedPath m)); [reflexivity |].
    apply startsWith_tilde_iff in H. now rewrite H.
Qed.

End Dependence.

Lemma getFolderPath_without_import_witness :
  getFolderPath (P := posixWork) defaultConfiguration workspaceModulesFileSystem
    "/ws/pkg/src/a.ts" (quoted "open(" "lodash/") 13
  = getFolderPath (P := posixWork) defaultConfiguration emptyFileSystem
      "/ws/pkg/src/a.ts" (quoted "open(" "lodash/") 13.
Proof.
  apply (getFolderPath_without_import (P := posixWork));
    intros H; apply includes_iff in H; vm_compute in H; discriminate.
Defined.

Lemma getFolderPath_without_file_witness :
  getFolderPath (P := posixWork) appConfiguration emptyFileSystem
    "/ws/pkg/src/a.ts" (quoted EmptyString "@app/util/") 11
  = getFolderPath (P := posixWork) appConfiguration emptyFileSystem
      "Untitled-1" (quoted EmptyString "@app/util/") 11.
Proof.
  apply (getFolderPath_without_file (P := posixWork)). left. vm_compute. discriminate.
Defined.

(** ** getInsertText: rules that do nothing *)

Lemma applyTransformation_inert {R : RegExpLib} (file : FileInfo) (text : string)
    (rule : Transformation) :
  InertRule rule -> applyTransformation file text rule = Normal text.
Proof.
  intros [Hwhen Hrule]. unfold applyTransformation.
  assert (Hregex : exists regex, fileNameRegexOf rule = Normal regex).
  { unfold fileNameRegexOf, newRegExp, FileNamePatternCompiles in *.
    destruct (when_fileName rule) as [[| c p] |]; simpl; eauto.
    rewrite (Hwhen (String c p) eq_refl) by discriminate. eauto. }
  destruct Hregex as [regex ->].
  destruct (match regex with
            | Some regex0 =>
                match regexp_exec regex0 (getName file) with
                | Some _ => false
                | None => true
                end
            | None => false
            end); [reflexivity |].
  destruct Hrule as [Htype | [Hnone | Hempty]].
  - apply String.eqb_neq in Htype. now rewrite Htype.
  - rewrite Hnone. now rewrite andb_false_r.
  - rewrite Hempty. now rewrite andb_false_r.
Qed.

(** X15: a transformation that is not a replace rule, or that has no
    pattern (no parameter, or an empty first parameter), leaves the
    insertion text as it is, provided its file-name pattern, when it has
    a non-empty one, compiles; when every configured rule is of that
    kind, [getInsertText] returns the base text.  The proviso is needed:
    the file-name pattern is compiled before the type of the rule is
    looked at, so that a first rule of that kind whose file-name pattern
    does not compile makes [getInsertText] throw the error of the
    compilation. *)
Theorem getInsertText_inert_rules {P : PathLib} {R : RegExpLib} (cfg : Configuration)
    (file : FileInfo) :
  (Forall InertRule (transformations cfg) ->
   getInsertText cfg file = Normal (baseInsertText cfg file))
  /\ (forall rule rest err,
         transformations cfg = rule :: rest ->
         PatternlessRule rule ->
         FileNamePatternFails rule err ->
         getInsertText cfg file = Thrown err).
Proof.
  unfold getInsertText. split.
  - generalize (baseInsertText cfg file) as text.
    induction (transformations cfg) as [| rule rules IH]; intros text Hall;
      [reflexivity |].
    inversion Hall as [| r rs Hrule Hrules]; subst. simpl.
    rewrite (applyTransformation_inert file text rule Hrule). apply IH. exact Hrules.
  - intros rule rest err -> _ Hfails. simpl. unfold applyTransformation.
    unfold FileNamePatternFails in Hfails. destruct Hfails as (pattern & Hwhen & Hne & Herr).
    unfold fileNameRegexOf, newRegExp. rewrite Hwhen, Herr.
    destruct pattern; [congruence | reflexivity].
Qed.

Lemma getInsertText_inert_rules_witness :
  getInsertText (P := posixWork) (R := literalRegExp) inertConfiguration indexFile
  = Normal "index"
  /\ getInsertText (P := posixWork) (R := literalRegExp)
       (withTransformations defaultConfiguration
          [ {| when_fileName := Some "*.ts"; type_ := "rename"; parameters := [] |} ])
       indexFile
     = Thrown "SyntaxError: Invalid regular expression: /*.ts/: Nothing to repeat".
Proof.
  split.
  - apply (proj1 (getInsertText_inert_rules (P := posixWork) (R := literalRegExp)
                    inertConfiguration indexFile)).
    apply Forall_cons; [split; [intros p H; discriminate | left; discriminate] |].
    apply Forall_cons; [split; [intros p H; discriminate | right; left; reflexivity] |].
    apply Forall_cons; [| apply Forall_nil].
    split; [| right; right; reflexivity].
    intros p H _. injection H as <-. reflexivity.
  - apply (proj2 (getInsertText_inert_rules (P := posixWork) (R := literalRegExp)
                    (withTransformations defaultConfiguration
                       [ {| when_fileName := Some "*.ts"; type_ := "rename";
                            parameters := [] |} ])
                    indexFile)
             {| when_fileName := Some "*.ts"; type_ := "rename"; parameters := [] |} []).
    + reflexivity.
    + left. discriminate.
    + exists "*.ts". split; [reflexivity |]. split; [discriminate | reflexivity].
Defined.

(** ** The text after the cursor *)

Lemma get_take (n i : nat) (s : string) :
  i < n -> String.get i (JS.take n s) = String.get i s.
Proof.
  revert i s. induction n as [| n IH]; intros i s Hlt; [lia |].
  destruct s as [| c s]; [reflexivity |].
  destruct i as [| i]; simpl; [reflexivity | apply IH; lia].
Qed.

Lemma drop_take (a n : nat) (s : string) :
  a <= n -> JS.take (n - a) (JS.drop a s) = JS.drop a (JS.take n s).
Proof.
  revert n s. induction a as [| a IH]; intros n s Hle.
  - rewrite Nat.sub_0_r. destruct n, s; reflexivity.
  - destruct n as [| n]; [lia |]. destruct s as [| c s]; simpl.
    + destruct (n - a); reflexivity.
    + apply IH. lia.
Qed.

Lemma lastIndex_agree (p q : nat -> bool) (n : nat) :
  (forall i, i < n -> p i = q i) -> lastIndex p n = lastIndex q n.
Proof.
  induction n as [| n IH]; intros H; [reflexivity |].
  simpl. rewrite (H n) by lia. rewrite IH by auto. reflexivity.
Qed.

Section SamePrefix.

Variables currentLine currentLine' : string.
Variable position : nat.
Hypothesis same_prefix : JS.take position currentLine = JS.take position currentLine'.

Lemma same_prefix_get (i : nat) :
  i < position -> String.get i currentLine = String.get i currentLine'.
Proof.
  intros Hlt. rewrite <- (get_take position i currentLine Hlt), same_prefix.
  apply get_take. exact Hlt.
Qed.

Lemma same_prefix_skipped (i : nat) :
  i <= position -> skipped currentLine i = skipped currentLine' i.
Proof.
  induction i as [| i IH]; intros Hle; [reflexivity |].
  simpl. unfold JS.at_. rewrite same_prefix_get by lia. rewrite IH by lia. reflexivity.
Qed.

Lemma same_prefix_start :
  getUserPath_start currentLine position = getUserPath_start currentLine' position.
Proof.
  rewrite !getUserPath_start_spec.
  rewrite (lastIndex_agree (unescapedQuote currentLine) (unescapedQuote currentLine')).
  - rewrite (lastIndex_agree (unescapedSeparator currentLine)
               (unescapedSeparator currentLine')); [reflexivity |].
    intros i Hi. unfold unescapedSeparator, JS.at_.
    rewrite same_prefix_get, same_prefix_skipped by lia. reflexivity.
  - intros i Hi. unfold unescapedQuote, JS.at_.
    rewrite same_prefix_get, same_prefix_skipped by lia. reflexivity.
Qed.

Lemma same_prefix_quoteNotEscaped (q : ascii) (i : nat) :
  i < position -> quoteNotEscaped currentLine q i = quoteNotEscaped currentLine' q i.
Proof.
  intros Hlt. unfold quoteNotEscaped. rewrite !charAt_of_nat. unfold JS.at_.
  rewrite same_prefix_get by exact Hlt. f_equal. f_equal.
  destruct i as [| i]; [reflexivity |].
  replace (Z.of_nat (S i) - 1)%Z with (Z.of_nat i) by lia.
  rewrite !charAt_of_nat. unfold JS.at_. rewrite same_prefix_get by lia. reflexivity.
Qed.

Lemma same_prefix_count (k : QuoteKind) (n : nat) :
  n <= position -> countNotEscaped currentLine k n = countNotEscaped currentLine' k n.
Proof.
  induction n as [| n IH]; intros Hle; [reflexivity |].
  rewrite !countNotEscaped_S, IH, same_prefix_quoteNotEscaped by lia. reflexivity.
Qed.

End SamePrefix.

(** X16: neither [getUserPath] nor [shouldProvide] looks at or past the
    cursor: two lines with the same text before the cursor give the same
    fragment and the same answer, so typing ahead of the cursor never
    changes the completion. *)
Theorem cursor_prefix_only (cfg : Configuration) (currentLine currentLine' : string)
    (position : nat) :
  JS.take position currentLine = JS.take position currentLine' ->
  getUserPath currentLine position = getUserPath currentLine' position
  /\ shouldProvide cfg currentLine position = shouldProvide cfg currentLine' position.
Proof.
  intros Hsame. split.
  - pose proof (getUserPath_start_bounds currentLine' position) as Hb.
    unfold getUserPath, JS.substring.
    rewrite (same_prefix_start currentLine currentLine' position Hsame).
    set (a := Z.to_nat (getUserPath_start currentLine' position + 1)).
    assert (Ha : a <= position) by (unfold a; lia).
    rewrite Nat.min_l, Nat.max_r by exact Ha.
    rewrite !drop_take by exact Ha. now rewrite Hsame.
  - unfold shouldProvide. destruct (triggerOutsideStrings cfg); [reflexivity |].
    pose proof (shouldProvide_scan_parity currentLine) as H.
    pose proof (shouldProvide_scan_parity currentLine') as H'.
    pose proof (H Single position) as Hs. pose proof (H' Single position) as Hs'.
    pose proof (H Double position) as Hd. pose proof (H' Double position) as Hd'.
    pose proof (H Backtick position) as Hb. pose proof (H' Backtick position) as Hb'.
    simpl in Hs, Hs', Hd, Hd', Hb, Hb'.
    rewrite Hs, Hs', Hd, Hd', Hb, Hb'.
    rewrite !(same_prefix_count currentLine currentLine' position Hsame) by lia.
    reflexivity.
Qed.

Lemma cursor_prefix_only_witness :
  getUserPath importLine 14 = getUserPath (JS.take 14 importLine ++ "index.ts") 14
  /\ shouldProvide defaultConfiguration importLine 14
     = shouldProvide defaultConfiguration (JS.take 14 importLine ++ "index.ts") 14.
Proof.
  apply (cursor_prefix_only defaultConfiguration importLine
           (JS.take 14 importLine ++ "index.ts") 14).
  reflexivity.
Defined.
